(** * VideoMaker: the media composition pipeline of [src/components/VideoMaker.tsx]

    A shallow embedding of the component's helper functions ([clamp], [extOf],
    [escapeDrawtext]), of its list editing callbacks and of [createVideo], the
    asynchronous callback that drives the encoding engine, followed by the
    properties of the specification that concern them.

    Conventions of the embedding.
    - A string is a [string] of the Standard Library; a character stands for
      a UTF-16 code unit below 256.  The backslash is an ordinary character
      of a Rocq string literal, so the TypeScript literal ['\\:'] is written
      ["\:"] here and ["\\\\"] is written ["\\"].
    - An integer valued [number] (a pixel dimension, a frame rate, a loop
      index) is a [Z]; a duration is a [number]: a rational, an infinity or
      NaN.  [Math.max], [Math.min] and the comparisons never round, so the
      embedding of these operations is exact.
    - The encoding engine, the network and the browser are a [World]: a
      transition system the pipeline calls into.  Every call may return or
      throw; [createVideo] is written in a state-and-exception monad that
      records each call and whether it returned. *)

From Stdlib Require Import ZArith QArith Qround String Ascii List Bool.
From Stdlib Require Import DecimalString DecimalZ DecimalPos Lia Lqa.
Import ListNotations.

Local Open Scope string_scope.
Local Open Scope Z_scope.

(* ================================================================== *)
(** * The runtime: strings and numbers *)
(* ================================================================== *)

Module JS.

(** ** Numbers *)

Inductive number : Type :=
| NaN
| NegInfinity
| Num (q : Q)
| Infinity.

(** [a <= b] on numbers; every comparison with NaN is false. *)
Definition leb (a b : number) : bool :=
  match a, b with
  | NaN, _ | _, NaN => false
  | NegInfinity, _ => true
  | _, Infinity => true
  | Num p, Num q => Qle_bool p q
  | _, _ => false
  end.

Definition le (a b : number) : Prop := leb a b = true.

(** [Math.max(a, b)]: NaN as soon as an argument is NaN. *)
Definition Math_max (a b : number) : number :=
  match a, b with
  | NaN, _ | _, NaN => NaN
  | Infinity, _ | _, Infinity => Infinity
  | NegInfinity, x | x, NegInfinity => x
  | Num p, Num q => if Qle_bool p q then Num q else Num p
  end.

(** [Math.min(a, b)]. *)
Definition Math_min (a b : number) : number :=
  match a, b with
  | NaN, _ | _, NaN => NaN
  | NegInfinity, _ | _, NegInfinity => NegInfinity
  | Infinity, x | x, Infinity => x
  | Num p, Num q => if Qle_bool p q then Num p else Num q
  end.

(** [Math.round] on a rational: the nearest integer, a tie going up. *)
Definition Math_round (q : Q) : Z := Qfloor (q + (1 # 2)).

(** [String(n)] and [`${n}`] for an integer valued number. *)
Definition String_int (z : Z) : string := NilZero.string_of_int (Z.to_int z).

(** ** Strings *)

Definition length (s : string) : Z := Z.of_nat (String.length s).

(** [s.replace(/c/g, r)] for a one character pattern. *)
Fixpoint replaceAll (c : ascii) (r : string) (s : string) : string :=
  match s with
  | EmptyString => EmptyString
  | String a s' =>
      if Ascii.eqb a c then r ++ replaceAll c r s'
      else String a (replaceAll c r s')
  end.

(** White space and line terminators among the code units below 256. *)
Definition isWhiteSpace (c : ascii) : bool :=
  let n := N_of_ascii c in
  ((9 <=? n) && (n <=? 13) || (n =? 32) || (n =? 160))%N.

Fixpoint trimStart (s : string) : string :=
  match s with
  | EmptyString => EmptyString
  | String c s' => if isWhiteSpace c then trimStart s' else s
  end.

Fixpoint reverse_onto (s acc : string) : string :=
  match s with
  | EmptyString => acc
  | String c s' => reverse_onto s' (String c acc)
  end.

Definition reverse (s : string) : string := reverse_onto s EmptyString.

Definition trimEnd (s : string) : string := reverse (trimStart (reverse s)).

(** [s.trim()] *)
Definition trim (s : string) : string := trimEnd (trimStart s).

(** [s.lastIndexOf(pat)]: the greatest position at which [pat] occurs in
    [s], or [-1]. *)
Fixpoint lastIndexOf_from (pat s : string) (pos found : Z) : Z :=
  let found' := if prefix pat s then pos else found in
  match s with
  | EmptyString => found'
  | String _ s' => lastIndexOf_from pat s' (pos + 1) found'
  end.

Definition lastIndexOf (s pat : string) : Z := lastIndexOf_from pat s 0 (-1).

(** [s.slice(start)] *)
Definition slice (s : string) (start : Z) : string :=
  let len := length s in
  let from := if start <? 0 then Z.max (len + start) 0 else Z.min start len in
  substring (Z.to_nat from) (Z.to_nat (len - from)) s.

(** A string in a boolean context: the empty string is falsy. *)
Definition truthy (s : string) : bool :=
  match s with EmptyString => false | String _ _ => true end.

(** [l.join(sep)] *)
Definition join (sep : string) (l : list string) : string := String.concat sep l.

(** [new TextEncoder().encode(s)]: UTF-8, two bytes for a code unit from
    128 to 255. *)
Definition utf8_of_char (c : ascii) : list Byte.byte :=
  let n := N_of_ascii c in
  if (n <? 128)%N then [byte_of_ascii c]
  else [byte_of_ascii (ascii_of_N (192 + n / 64));
        byte_of_ascii (ascii_of_N (128 + n mod 64))].

Definition TextEncoder_encode (s : string) : list Byte.byte :=
  flat_map utf8_of_char (list_ascii_of_string s).

End JS.

Import JS.

Definition bytes : Type := list Byte.byte.

(** The line feed of ["\n"]. *)
Definition LF : string := String (ascii_of_nat 10) EmptyString.

(* ================================================================== *)
(** * Helper functions of the component *)
(* ================================================================== *)

(** The literals [0.2] and [120]. *)
Definition lit_0_2 : number := Num (1 # 5).
Definition lit_120 : number := Num (120 # 1).

(** [function clamp(n, min, max)] *)
Definition clamp (n min max : number) : number :=
  Math_max min (Math_min max n).

(** [function extOf(name)] *)
Definition extOf (name : string) : string :=
  let i := lastIndexOf name "." in
  if 0 <=? i then slice name i else EmptyString.

(** [function escapeDrawtext(text)]: three global replacements, the colon
    first, then the single quote, then the backslash. *)
Definition escapeDrawtext (text : string) : string :=
  replaceAll "\" "\\" (replaceAll "'" "\'" (replaceAll ":" "\:" text)).

(** ** Notions the properties are stated with *)

(** Whether the character [c] occurs in [s]. *)
Fixpoint occurs (c : ascii) (s : string) : bool :=
  match s with
  | EmptyString => false
  | String a s' => Ascii.eqb a c || occurs c s'
  end.

(** The text of [s] before the first [c]. *)
Fixpoint upTo (c : ascii) (s : string) : string :=
  match s with
  | EmptyString => EmptyString
  | String a s' => if Ascii.eqb a c then EmptyString else String a (upTo c s')
  end.

(** [s] cut at every [c]: the stages of a filter expression for a comma,
    the options of a stage for a colon. *)
Fixpoint splitOn (c : ascii) (s : string) : list string :=
  match s with
  | EmptyString => [EmptyString]
  | String a s' =>
      if Ascii.eqb a c then EmptyString :: splitOn c s'
      else match splitOn c s' with
           | [] => [String a EmptyString]
           | x :: xs => String a x :: xs
           end
  end.

(** How the filter syntax reads an escaped text: a backslash is dropped
    and the character after it is taken as it is. *)
Fixpoint unescape (s : string) : string :=
  match s with
  | EmptyString => EmptyString
  | String c s' =>
      if Ascii.eqb c "\" then
        match s' with
        | EmptyString => String c EmptyString
        | String d s'' => String d (unescape s'')
        end
      else String c (unescape s')
  end.

(** The escaping in the order the specification asks for: the backslash
    first, then the single quote and the colon.  It is not the function of
    the component; [escapeDrawtext] is compared with it. *)
Definition escapeDrawtext_backslash_first (text : string) : string :=
  replaceAll ":" "\:" (replaceAll "'" "\'" (replaceAll "\" "\\" text)).

(** [f] applied to every character, the results put end to end. *)
Fixpoint flatMap (f : ascii -> string) (s : string) : string :=
  match s with
  | EmptyString => EmptyString
  | String c s' => f c ++ flatMap f s'
  end.

(** What the three replacements of [escapeDrawtext] make of one
    character: the backslash put before a colon or a quote is doubled by
    the last replacement. *)
Definition escapeChar (c : ascii) : string :=
  if Ascii.eqb c ":" then "\\:"
  else if Ascii.eqb c "'" then "\\'"
  else if Ascii.eqb c "\" then "\\"
  else String c EmptyString.

(** What the backslash-first order makes of one character. *)
Definition escapeChar_backslash_first (c : ascii) : string :=
  if Ascii.eqb c "\" then "\\"
  else if Ascii.eqb c "'" then "\'"
  else if Ascii.eqb c ":" then "\:"
  else String c EmptyString.

(** What is read back from the escaped form of one character. *)
Definition readBack (c : ascii) : string :=
  if Ascii.eqb c ":" then "\:"
  else if Ascii.eqb c "'" then "\'"
  else String c EmptyString.

(* ================================================================== *)
(** * The data model *)
(* ================================================================== *)

Record File : Type := mkFile {
  name : string;
  contents : bytes
}.

Record MediaItem : Type := mkMediaItem {
  id : string;
  file : File;
  caption : string;
  durationSec : number
}.

(** [Partial<MediaItem>] *)
Record MediaItemPatch : Type := mkPatch {
  patch_id : option string;
  patch_file : option File;
  patch_caption : option string;
  patch_durationSec : option number
}.

Definition orElse {A : Type} (o : option A) (d : A) : A :=
  match o with Some a => a | None => d end.

(** [{ ...it, ...patch }] *)
Definition spread (it : MediaItem) (patch : MediaItemPatch) : MediaItem :=
  {| id := orElse (patch_id patch) (id it);
     file := orElse (patch_file patch) (file it);
     caption := orElse (patch_caption patch) (caption it);
     durationSec := orElse (patch_durationSec patch) (durationSec it) |}.

(** [updateItem]: the state updater handed to [setItems]. *)
Definition updateItem (id0 : string) (patch : MediaItemPatch)
    (prev : list MediaItem) : list MediaItem :=
  map (fun it => if String.eqb (id it) id0 then spread it patch else it) prev.

(** [removeItem] *)
Definition removeItem (id0 : string) (prev : list MediaItem) : list MediaItem :=
  filter (fun it => negb (String.eqb (id it) id0)) prev.

Definition durationPatch (d : number) : MediaItemPatch :=
  {| patch_id := None; patch_file := None; patch_caption := None;
     patch_durationSec := Some d |}.

Definition captionPatch (c : string) : MediaItemPatch :=
  {| patch_id := None; patch_file := None; patch_caption := Some c;
     patch_durationSec := None |}.

(** The [onChange] handler of the duration field of item [it]:
    [updateItem(it.id, { durationSec: clamp(Number(e.target.value), 0.2, 120) })].
    [Number_] is the runtime's conversion of the field's text. *)
Definition onChangeDuration (Number_ : string -> number) (it : MediaItem)
    (value : string) (prev : list MediaItem) : list MediaItem :=
  updateItem (id it) (durationPatch (clamp (Number_ value) lit_0_2 lit_120)) prev.

(** The [onChange] handler of the caption field. *)
Definition onChangeCaption (it : MediaItem) (value : string)
    (prev : list MediaItem) : list MediaItem :=
  updateItem (id it) (captionPatch value) prev.

(** What one run closes over: the dependencies of the [createVideo]
    callback. *)
Record Snapshot : Type := mkSnapshot {
  items : list MediaItem;
  audioFile : option File;
  resolution_w : Z;
  resolution_h : Z;
  fps : Z;
  fontUrl : string
}.

(* ================================================================== *)
(** * The filter expression and the engine commands *)
(* ================================================================== *)

Section Commands.

(** [String(n)] for an arbitrary number: the runtime's conversion. *)
Variable String_number : number -> string.

(** [scalePad] *)
Definition scalePad (w h : Z) : string :=
  "scale=" ++ String_int w
    ++ ":-2:force_original_aspect_ratio=decrease,pad=" ++ String_int w
    ++ ":" ++ String_int h ++ ":(ow-iw)/2:(oh-ih)/2:color=black,setsar=1".

(** [hasCaption], as a condition *)
Definition hasCaption (cap fontPath : string) : bool :=
  (JS.length (trim cap) >? 0) && truthy fontPath.

(** [Math.round(Math.min(resolution.w, resolution.h) / 18)] *)
Definition fontSize (w h : Z) : Z :=
  Math_round (inject_Z (Z.min w h) / inject_Z 18).

(** [Math.round(resolution.h / 8)] *)
Definition bottomOffset (h : Z) : Z :=
  Math_round (inject_Z h / inject_Z 8).

(** The text overlay stage, without the comma that precedes it. *)
Definition drawtext (w h : Z) (cap fontPath : string) : string :=
  "drawtext=fontfile=" ++ fontPath
    ++ ":text='" ++ escapeDrawtext cap
    ++ "':fontcolor=white:fontsize=" ++ String_int (fontSize w h)
    ++ ":x=(w-text_w)/2:y=h-(" ++ String_int (bottomOffset h)
    ++ "):shadowcolor=0x000000@0.5:shadowx=2:shadowy=2".

(** [vf] *)
Definition vf (w h : Z) (cap fontPath : string) : string :=
  if hasCaption cap fontPath
  then scalePad w h ++ "," ++ drawtext w h cap fontPath
  else scalePad w h.

(** [inputName] and [partName] of the item at index [i] *)
Definition inputName (i : nat) (it : MediaItem) : string :=
  "input_" ++ String_int (Z.of_nat i) ++ extOf (name (file it)).

Definition partName (i : nat) : string :=
  "part_" ++ String_int (Z.of_nat i) ++ ".mp4".

(** [["-y", ...args]] of the per item render *)
Definition renderCommand (p : Snapshot) (fontPath : string) (i : nat)
    (it : MediaItem) : list string :=
  [ "-y";
    "-loop"; "1";
    "-t"; String_number (Math_max lit_0_2 (durationSec it));
    "-i"; inputName i it;
    "-r"; String_int (fps p);
    "-vf"; vf (resolution_w p) (resolution_h p) (caption it) fontPath;
    "-an";
    "-c:v"; "libx264";
    "-pix_fmt"; "yuv420p";
    "-movflags"; "+faststart";
    partName i ].

(** The render commands of the items [its], the first one at index [i]. *)
Fixpoint renderCommands (p : Snapshot) (fontPath : string) (i : nat)
    (its : list MediaItem) : list (list string) :=
  match its with
  | [] => []
  | it :: rest =>
      renderCommand p fontPath i it :: renderCommands p fontPath (S i) rest
  end.

(** [listTxt] *)
Definition listTxt (partNames : list string) : string :=
  join LF (map (fun p => "file '" ++ p ++ "'") partNames).

Definition concatCommand : list string :=
  [ "-y"; "-f"; "concat"; "-safe"; "0"; "-i"; "concat_list.txt";
    "-c"; "copy"; "output_video.mp4" ].

Definition muxCommand (finalName : string) : list string :=
  [ "-y";
    "-i"; "output_video.mp4";
    "-i"; "audio_in";
    "-shortest";
    "-map"; "0:v:0";
    "-map"; "1:a:0";
    "-c:v"; "copy";
    "-c:a"; "aac";
    "-b:a"; "192k";
    finalName ].

(** Every command of a run that goes through: a render per item, the
    concatenation, and the mux when there is an audio file. *)
Definition muxPlan (p : Snapshot) : list (list string) :=
  match audioFile p with
  | Some _ => [muxCommand "final.mp4"]
  | None => []
  end.

Definition plan (p : Snapshot) (fontPath : string) : list (list string) :=
  (renderCommands p fontPath 0 (items p) ++ concatCommand :: muxPlan p)%list.

End Commands.

(* ================================================================== *)
(** * The world the pipeline runs in *)
(* ================================================================== *)

(** An entry of [ffmpeg.listDir]. *)
Record FSNode : Type := mkFSNode {
  node_name : string;
  isDir : bool
}.

(** What [fetchFile] is given: a URL or a picked file. *)
Inductive FetchSource : Type :=
| FromUrl (url : string)
| FromFile (f : File).

(** The engine, the network and the browser, with [Env] their hidden
    state.  [None] and [false] stand for a rejected promise. *)
Record World (Env : Type) : Type := mkWorld {
  w_toBlobURL : Env -> string -> string -> option string * Env;
  w_load : Env -> string -> string -> string -> bool * Env;
  w_listDir : Env -> string -> option (list FSNode) * Env;
  w_deleteFile : Env -> string -> bool * Env;
  w_fetchFile : Env -> FetchSource -> option bytes * Env;
  w_writeFile : Env -> string -> bytes -> bool * Env;
  (** the fractions reported to the progress listener, then the outcome *)
  w_exec : Env -> list string -> list Q * bool * Env;
  w_readFile : Env -> string -> option bytes * Env;
  w_createObjectURL : Env -> bytes -> string -> string * Env
}.

Arguments w_toBlobURL {Env}.
Arguments w_load {Env}.
Arguments w_listDir {Env}.
Arguments w_deleteFile {Env}.
Arguments w_fetchFile {Env}.
Arguments w_writeFile {Env}.
Arguments w_exec {Env}.
Arguments w_readFile {Env}.
Arguments w_createObjectURL {Env}.

(** A call into the world. *)
Inductive Call : Type :=
| ToBlobURL (url mime : string)
| Load (coreURL wasmURL workerURL : string)
| ListDir (path : string)
| DeleteFile (path : string)
| FetchFile (src : FetchSource)
| WriteFile (path : string) (data : bytes)
| Exec (args : list string)
| ReadFile (path : string)
| CreateObjectURL (data : bytes) (mime : string).

(** A call and whether it returned ([true]) or threw ([false]). *)
Definition Event : Type := (Call * bool)%type.

(** The commands handed to [ffmpeg.exec], in order. *)
Definition execs (evs : list Event) : list (list string) :=
  flat_map (fun e => match e with (Exec args, _) => [args] | _ => [] end) evs.

(** The names handed to [ffmpeg.readFile], in order. *)
Definition reads (evs : list Event) : list string :=
  flat_map (fun e => match e with (ReadFile n, _) => [n] | _ => [] end) evs.

(** The URLs handed to [fetchFile], with the outcome of each download. *)
Definition downloads (evs : list Event) : list (string * bool) :=
  flat_map (fun e => match e with
                     | (FetchFile (FromUrl u), ok) => [(u, ok)]
                     | _ => []
                     end) evs.

(** Some call other than a download threw. *)
Definition fatal (evs : list Event) : Prop :=
  exists c, In (c, false) evs /\ forall u, c <> FetchFile (FromUrl u).

(** [l] is the beginning of [full]. *)
Definition startOf {A : Type} (l full : list A) : Prop :=
  exists rest, full = (l ++ rest)%list.

(** An event of the engine itself: a method of the [FFmpeg] object. *)
Definition isEngineCall (c : Call) : bool :=
  match c with
  | Load _ _ _ | ListDir _ | DeleteFile _ | WriteFile _ _ | Exec _
  | ReadFile _ => true
  | ToBlobURL _ _ | FetchFile _ | CreateObjectURL _ _ => false
  end.

(* ================================================================== *)
(** * The component state and the monad of [createVideo] *)
(* ================================================================== *)

Section Pipeline.

Variable String_number : number -> string.
Variable Env : Type.
Variable W : World Env.

(** The React state that [createVideo] writes, the engine handle of
    [ffmpegRef] ([true] once an engine is loaded) and the world. *)
Record State : Type := mkState {
  isBusy : bool;
  progress : Z;
  message : string;
  videoUrl : option string;
  ffmpegRef : bool;
  env : Env
}.

Inductive Outcome (A : Type) : Type :=
| Ok (a : A)
| Throw.
Arguments Ok {A}.
Arguments Throw {A}.

(** A computation: from a state to an outcome, a state and the events
    it caused. *)
Definition M (A : Type) : Type := State -> Outcome A * State * list Event.

Definition ret {A : Type} (a : A) : M A := fun s => (Ok a, s, []).

Definition bind {A B : Type} (m : M A) (k : A -> M B) : M B :=
  fun s =>
    match m s with
    | (Ok a, s1, e1) =>
        match k a s1 with
        | (o, s2, e2) => (o, s2, (e1 ++ e2)%list)
        end
    | (Throw, s1, e1) => (Throw, s1, e1)
    end.

(** [try { m } catch { h }] *)
Definition try_catch {A : Type} (m : M A) (h : M A) : M A :=
  fun s =>
    match m s with
    | (Ok a, s1, e1) => (Ok a, s1, e1)
    | (Throw, s1, e1) =>
        match h s1 with
        | (o, s2, e2) => (o, s2, (e1 ++ e2)%list)
        end
    end.

(** [try { m } finally { f }], for an [f] that does not throw. *)
Definition try_finally {A : Type} (m : M A) (f : M unit) : M A :=
  fun s =>
    match m s with
    | (o, s1, e1) =>
        match f s1 with
        | (Ok _, s2, e2) => (o, s2, (e1 ++ e2)%list)
        | (Throw, s2, e2) => (Throw, s2, (e1 ++ e2)%list)
        end
    end.

Notation "x <- m ;; k" := (bind m (fun x => k))
  (at level 61, m at next level, right associativity).
Notation "m ;; k" := (bind m (fun _ => k))
  (at level 61, right associativity).

(** [for (const x of l) { body }] *)
Fixpoint forEach {A : Type} (l : list A) (body : A -> M unit) : M unit :=
  match l with
  | [] => ret tt
  | x :: l' => body x ;; forEach l' body
  end.

(** ** The state setters *)

Definition setIsBusy (b : bool) : M unit := fun s =>
  (Ok tt, mkState b (progress s) (message s) (videoUrl s) (ffmpegRef s) (env s), []).

Definition setProgress (n : Z) : M unit := fun s =>
  (Ok tt, mkState (isBusy s) n (message s) (videoUrl s) (ffmpegRef s) (env s), []).

Definition setMessage (m : string) : M unit := fun s =>
  (Ok tt, mkState (isBusy s) (progress s) m (videoUrl s) (ffmpegRef s) (env s), []).

Definition setVideoUrl (u : option string) : M unit := fun s =>
  (Ok tt, mkState (isBusy s) (progress s) (message s) u (ffmpegRef s) (env s), []).

Definition setFfmpegRef (b : bool) : M unit := fun s =>
  (Ok tt, mkState (isBusy s) (progress s) (message s) (videoUrl s) b (env s), []).

Definition getFfmpegRef : M bool := fun s => (Ok (ffmpegRef s), s, []).

Definition withEnv (s : State) (e : Env) : State :=
  mkState (isBusy s) (progress s) (message s) (videoUrl s) (ffmpegRef s) e.

(** ** The calls into the world *)

Definition call_option {A : Type} (c : Call) (r : option A * Env) : M A :=
  fun s =>
    match r with
    | (Some a, e) => (Ok a, withEnv s e, [(c, true)])
    | (None, e) => (Throw, withEnv s e, [(c, false)])
    end.

Definition call_bool (c : Call) (r : bool * Env) : M unit :=
  fun s =>
    match r with
    | (true, e) => (Ok tt, withEnv s e, [(c, true)])
    | (false, e) => (Throw, withEnv s e, [(c, false)])
    end.

Definition toBlobURL (url mime : string) : M string := fun s =>
  call_option (ToBlobURL url mime) (w_toBlobURL W (env s) url mime) s.

Definition load (coreURL wasmURL workerURL : string) : M unit := fun s =>
  call_bool (Load coreURL wasmURL workerURL)
    (w_load W (env s) coreURL wasmURL workerURL) s.

Definition listDir (path : string) : M (list FSNode) := fun s =>
  call_option (ListDir path) (w_listDir W (env s) path) s.

Definition deleteFile (path : string) : M unit := fun s =>
  call_bool (DeleteFile path) (w_deleteFile W (env s) path) s.

Definition fetchFile (src : FetchSource) : M bytes := fun s =>
  call_option (FetchFile src) (w_fetchFile W (env s) src) s.

Definition writeFile (path : string) (data : bytes) : M unit := fun s =>
  call_bool (WriteFile path data) (w_writeFile W (env s) path data) s.

Definition readFile (path : string) : M bytes := fun s =>
  call_option (ReadFile path) (w_readFile W (env s) path) s.

Definition createObjectURL (data : bytes) (mime : string) : M string := fun s =>
  match w_createObjectURL W (env s) data mime with
  | (u, e) => (Ok u, withEnv s e, [(CreateObjectURL data mime, true)])
  end.

(** The listener registered in [ensureFFmpeg]:
    [({ progress }) => setProgress(Math.round(progress * 100))]. *)
Definition onProgress (s : State) (fraction : Q) : State :=
  mkState (isBusy s) (Math_round (fraction * inject_Z 100)) (message s)
    (videoUrl s) (ffmpegRef s) (env s).

(** [ffmpeg.exec(args)]: the listener runs for every fraction reported
    while the command runs. *)
Definition exec (args : list string) : M unit := fun s =>
  match w_exec W (env s) args with
  | (fractions, ok, e) =>
      let s' := withEnv (fold_left onProgress fractions s) e in
      (if ok then Ok tt else Throw, s', [(Exec args, ok)])
  end.

(** ** [ensureFFmpeg] *)

Definition CORE_VERSION : string := "0.12.6".

Definition base : string :=
  "https://unpkg.com/@ffmpeg/core@" ++ CORE_VERSION ++ "/dist".

Definition ensureFFmpeg : M unit :=
  loaded <- getFfmpegRef ;;
  if loaded then ret tt
  else
    coreURL <- toBlobURL (base ++ "/ffmpeg-core.js") "text/javascript" ;;
    wasmURL <- toBlobURL (base ++ "/ffmpeg-core.wasm") "application/wasm" ;;
    workerURL <- toBlobURL (base ++ "/ffmpeg-core.worker.js") "text/javascript" ;;
    load coreURL wasmURL workerURL ;;
    setFfmpegRef true.

(** ** The stages of [createVideo] *)

Variable p : Snapshot.

(** The body of the loop over the listed files, its [catch] block
    empty. *)
Definition deleteStale (f : FSNode) : M unit :=
  if truthy (node_name f)
       && negb (String.eqb (node_name f) ".")
       && negb (String.eqb (node_name f) "..")
  then try_catch (deleteFile ("/" ++ node_name f)) (ret tt)
  else ret tt.

(** Reset FS for clean run, its [catch] block empty. *)
Definition resetFS : M unit :=
  try_catch
    (files <- listDir "/" ;;
     forEach files deleteStale)
    (ret tt).

(** Write font file if we can fetch it: the value of [fontPath]
    afterwards. *)
Definition writeFont : M string :=
  try_catch
    (fontBin <- fetchFile (FromUrl (fontUrl p)) ;;
     writeFile "font.ttf" fontBin ;;
     ret "font.ttf")
    (ret EmptyString).

(** The body of the loop over the items; it returns [partName]. *)
Definition renderItem (fontPath : string) (i : nat) (it : MediaItem) : M string :=
  data <- fetchFile (FromFile (file it)) ;;
  writeFile (inputName i it) data ;;
  exec (renderCommand String_number p fontPath i it) ;;
  ret (partName i).

(** The loop, from index [i], with [partNames] as pushed so far. *)
Fixpoint renderItems (fontPath : string) (i : nat) (its : list MediaItem)
    (partNames : list string) : M (list string) :=
  match its with
  | [] => ret partNames
  | it :: rest =>
      part <- renderItem fontPath i it ;;
      renderItems fontPath (S i) rest (partNames ++ [part])%list
  end.

(** Create concat list, concatenate parts into a single mp4. *)
Definition concatParts (partNames : list string) : M unit :=
  writeFile "concat_list.txt" (TextEncoder_encode (listTxt partNames)) ;;
  exec concatCommand.

(** If audio present, mux it in: the value of [finalName] afterwards. *)
Definition muxAudio : M string :=
  match audioFile p with
  | Some f =>
      data <- fetchFile (FromFile f) ;;
      writeFile "audio_in" data ;;
      try_catch
        (exec (muxCommand "final.mp4") ;; ret "final.mp4")
        (ret "output_video.mp4")
  | None => ret "output_video.mp4"
  end.

Definition successMessage : string := "??????! ???????? ???? ????? ????.".

Definition failureMessage : string :=
  "?????? ??? ???????? ?????. ?????????? ????????? ?????? ??? ????????????? ????????.".

(** The end of the [try] block, from the concat list on. *)
Definition finish (partNames : list string) : M unit :=
  concatParts partNames ;;
  finalName <- muxAudio ;;
  data <- readFile finalName ;;
  url <- createObjectURL data "video/mp4" ;;
  setVideoUrl (Some url) ;;
  setMessage successMessage.

(** The beginning of the [try] block, up to the font; its value is
    [fontPath]. *)
Definition prelude : M string :=
  ensureFFmpeg ;;
  resetFS ;;
  writeFont.

(** The state after the four setters that open [createVideo]. *)
Definition started (s : State) : State :=
  mkState true 0 EmptyString None (ffmpegRef s) (env s).

(** The [try] block. *)
Definition pipeline : M unit :=
  ensureFFmpeg ;;
  resetFS ;;
  fontPath <- writeFont ;;
  partNames <- renderItems fontPath 0 (items p) [] ;;
  finish partNames.

(** [createVideo] *)
Definition createVideo : M unit :=
  setIsBusy true ;;
  setMessage EmptyString ;;
  setProgress 0 ;;
  setVideoUrl None ;;
  try_finally
    (try_catch pipeline (setMessage failureMessage))
    (setIsBusy false ;; setProgress 0).

(** [canCreate] *)
Definition canCreate (s : State) : bool :=
  (Z.of_nat (List.length (items p)) >? 0) && negb (isBusy s).

(** A click on the button
    [<button disabled={!canCreate} onClick={createVideo}>]:
    a disabled button dispatches no click. *)
Definition clickCreate : M unit := fun s =>
  if canCreate s then createVideo s else (Ok tt, s, []).

End Pipeline.

Arguments Ok {A}.
Arguments Throw {A}.
Arguments mkState {Env}.
Arguments isBusy {Env}.
Arguments progress {Env}.
Arguments message {Env}.
Arguments videoUrl {Env}.
Arguments ffmpegRef {Env}.
Arguments env {Env}.
Arguments ret {Env A}.
Arguments bind {Env A B}.
Arguments try_catch {Env A}.
Arguments try_finally {Env A}.
Arguments forEach {Env A}.
Arguments setIsBusy {Env}.
Arguments setProgress {Env}.
Arguments setMessage {Env}.
Arguments setVideoUrl {Env}.
Arguments setFfmpegRef {Env}.
Arguments getFfmpegRef {Env}.
Arguments withEnv {Env}.
Arguments call_option {Env A}.
Arguments call_bool {Env}.
Arguments onProgress {Env}.
Arguments toBlobURL {Env}.
Arguments load {Env}.
Arguments listDir {Env}.
Arguments deleteFile {Env}.
Arguments fetchFile {Env}.
Arguments writeFile {Env}.
Arguments readFile {Env}.
Arguments createObjectURL {Env}.
Arguments exec {Env}.
Arguments ensureFFmpeg {Env}.
Arguments deleteStale {Env}.
Arguments resetFS {Env}.
Arguments writeFont {Env}.
Arguments renderItem String_number {Env}.
Arguments renderItems String_number {Env}.
Arguments concatParts {Env}.
Arguments muxAudio {Env}.
Arguments finish {Env}.
Arguments prelude {Env}.
Arguments started {Env}.
Arguments pipeline String_number {Env}.
Arguments createVideo String_number {Env}.
Arguments canCreate {Env}.
Arguments clickCreate String_number {Env}.

(** The events, the final state and the outcome of a computation. *)
Definition eventsOf {Env A : Type} (r : Outcome A * State Env * list Event) : list Event :=
  snd r.

Definition stateOf {Env A : Type} (r : Outcome A * State Env * list Event) : State Env :=
  snd (fst r).

Definition outcomeOf {Env A : Type} (r : Outcome A * State Env * list Event) : Outcome A :=
  fst (fst r).

(* ================================================================== *)
(** * A world and a number conversion for the worked examples *)
(* ================================================================== *)

(** The fractional digits of [r / den], at most [fuel] of them. *)
Fixpoint fractionDigits (fuel : nat) (r den : Z) : string :=
  match fuel with
  | O => EmptyString
  | S fuel' =>
      if r =? 0 then EmptyString
      else String_int (10 * r / den) ++ fractionDigits fuel' (10 * r mod den) den
  end.

(** A decimal conversion of numbers: exact when the number has at most 17
    fractional digits. *)
Definition String_decimal (n : number) : string :=
  match n with
  | NaN => "NaN"
  | Infinity => "Infinity"
  | NegInfinity => "-Infinity"
  | Num q =>
      let den := Z.pos (Qden q) in
      let a := Z.abs (Qnum q) in
      let sign := if Qnum q <? 0 then "-" else EmptyString in
      let frac := fractionDigits 17 (a mod den) den in
      sign ++ String_int (a / den)
        ++ (if truthy frac then "." ++ frac else EmptyString)
  end.

(** A world without hidden state in which every call returns, except the
    font download when [fontOk] is off and the audio mux when [muxOk] is
    off.  The scratch directory holds one stale file. *)
Definition isMux (args : list string) : bool :=
  String.eqb (nth 1 args EmptyString) "-i".

Definition sampleWorld (fontOk muxOk : bool) : World unit :=
  {| w_toBlobURL := fun e url _ => (Some ("blob:" ++ url), e);
     w_load := fun e _ _ _ => (true, e);
     w_listDir := fun e _ =>
       (Some [mkFSNode "." true; mkFSNode ".." true; mkFSNode "final.mp4" false], e);
     w_deleteFile := fun e _ => (true, e);
     w_fetchFile := fun e src =>
       (match src with
        | FromUrl _ => if fontOk then Some [] else None
        | FromFile f => Some (contents f)
        end, e);
     w_writeFile := fun e _ _ => (true, e);
     w_exec := fun e args => ([1 # 2; 1 # 1]%Q, if isMux args then muxOk else true, e);
     w_readFile := fun e _ => (Some [], e);
     w_createObjectURL := fun e _ _ => ("blob:video", e) |}.

Definition sampleItems : list MediaItem :=
  [ mkMediaItem "a" (mkFile "one.png" []) "Rome: day 1" (Num (2 # 1));
    mkMediaItem "b" (mkFile "two.jpeg" []) EmptyString (Num (3 # 1));
    mkMediaItem "c" (mkFile "three" []) " " (Num (1 # 10)) ].

Definition sampleSnapshot (audio : option File) : Snapshot :=
  {| items := sampleItems;
     audioFile := audio;
     resolution_w := 1280;
     resolution_h := 720;
     fps := 30;
     fontUrl := "https://fonts.gstatic.com/s/roboto/v30/KFOmCnqEu92Fr1Mu4mxP.ttf" |}.

Definition sampleAudio : File := mkFile "song.mp3" [].

Definition emptySnapshot : Snapshot :=
  {| items := [];
     audioFile := None;
     resolution_w := 1280;
     resolution_h := 720;
     fps := 30;
     fontUrl := "https://fonts.gstatic.com/s/roboto/v30/KFOmCnqEu92Fr1Mu4mxP.ttf" |}.

Definition idle : State unit :=
  mkState false 0 EmptyString None false tt.

(* ================================================================== *)
(** * The remaining callbacks and the notions their properties use *)
(* ================================================================== *)

(** The literal [3]. *)
Definition lit_3 : number := Num (3 # 1).

(** [files.map((f) => ({ id: ..., file: f, caption: "", durationSec: 3 }))],
    from position [k] on; [freshId k] is the identifier that the clock and
    the random generator give the file at position [k]. *)
Fixpoint newItems (freshId : nat -> string) (k : nat) (files : list File)
    : list MediaItem :=
  match files with
  | [] => []
  | f :: rest =>
      mkMediaItem (freshId k) f EmptyString lit_3 :: newItems freshId (S k) rest
  end.

(** [onPickMedia]: the state updater handed to [setItems];
    [e.target.files] is [None] when it is null. *)
Definition onPickMedia (freshId : nat -> string) (files : option (list File))
    (prev : list MediaItem) : list MediaItem :=
  (prev ++ newItems freshId 0 (orElse files []))%list.

(** [onPickAudio]: the value handed to [setAudioFile]. *)
Definition onPickAudio (files : option (list File)) : option File :=
  match files with
  | Some (f :: _) => Some f
  | _ => None
  end.

(** A duration within the bounds of the duration field. *)
Definition durationValid (it : MediaItem) : Prop :=
  le lit_0_2 (durationSec it) /\ le (durationSec it) lit_120.

(** Every character of [s] is white space. *)
Fixpoint allWhiteSpace (s : string) : bool :=
  match s with
  | EmptyString => true
  | String c s' => isWhiteSpace c && allWhiteSpace s'
  end.

(** How many times [c] occurs in [s]. *)
Fixpoint countChar (c : ascii) (s : string) : nat :=
  match s with
  | EmptyString => O
  | String a s' => ((if Ascii.eqb a c then 1 else 0) + countChar c s')%nat
  end.

(** The paths handed to [ffmpeg.deleteFile], in order. *)
Definition deletions (evs : list Event) : list string :=
  flat_map (fun e => match e with (DeleteFile f, _) => [f] | _ => [] end) evs.

(** The files handed to [ffmpeg.writeFile], in order. *)
Definition writes (evs : list Event) : list (string * bytes) :=
  flat_map (fun e => match e with (WriteFile f d, _) => [(f, d)] | _ => [] end) evs.

(** A call that sets the engine up: a download of its code or its load. *)
Definition isSetupCall (c : Call) : bool :=
  match c with
  | ToBlobURL _ _ | Load _ _ _ => true
  | _ => false
  end.

(** The entries of a listing that the reset deletes. *)
Definition stale (f : FSNode) : bool :=
  truthy (node_name f)
    && negb (String.eqb (node_name f) ".")
    && negb (String.eqb (node_name f) "..").

(** A decimal digit. *)
Definition isDigit (c : ascii) : bool := occurs c "0123456789".

Fixpoint allDigits (s : string) : bool :=
  match s with
  | EmptyString => true
  | String c s' => isDigit c && allDigits s'
  end.

(** A text that does not go on with a digit. *)
Definition stops (s : string) : Prop :=
  match s with
  | EmptyString => True
  | String c _ => isDigit c = false
  end.

(** The setup calls among the events. *)
Definition setups (evs : list Event) : list Event :=
  filter (fun e => isSetupCall (fst e)) evs.

(** [s1] has the flags, the message, the video URL and the engine handle
    of [s]: only the progress and the world may differ. *)
Definition sameUI {Env : Type} (s s1 : State Env) : Prop :=
  isBusy s1 = isBusy s /\ message s1 = message s
  /\ videoUrl s1 = videoUrl s /\ ffmpegRef s1 = ffmpegRef s.

(** The state [final] in which a run ends when its [try] block ended in
    [last], with the message [m]. *)
Definition settled {Env : Type} (final last : State Env) (m : string) : Prop :=
  isBusy final = false /\ progress final = 0 /\ message final = m
  /\ videoUrl final = videoUrl last /\ ffmpegRef final = ffmpegRef last
  /\ env final = env last.

(** The line feed as a character. *)
Definition LFchar : ascii := ascii_of_nat 10.

(** What goes wrong in a world of the worked examples. *)
Record Faults : Type := mkFaults {
  failLoad : bool;
  failRender : bool;
  failConcat : bool;
  failAudioWrite : bool;
  failRead : bool
}.

Definition noFaults : Faults := mkFaults false false false false false.

(** A world without hidden state in which the calls named by [f] throw
    and every other call returns. *)
Definition faultyWorld (f : Faults) : World unit :=
  {| w_toBlobURL := fun e url _ => (Some ("blob:" ++ url), e);
     w_load := fun e _ _ _ => (negb (failLoad f), e);
     w_listDir := fun e _ =>
       (Some [mkFSNode "." true; mkFSNode ".." true; mkFSNode "final.mp4" false;
              mkFSNode "part_0.mp4" false], e);
     w_deleteFile := fun e path => (negb (String.eqb path "/final.mp4"), e);
     w_fetchFile := fun e src =>
       (match src with
        | FromUrl _ => Some []
        | FromFile x => Some (contents x)
        end, e);
     w_writeFile := fun e path _ =>
       (negb (failAudioWrite f && String.eqb path "audio_in"), e);
     w_exec := fun e args =>
       ([1 # 4; 1 # 1]%Q,
        negb ((failRender f && String.eqb (nth 1 args EmptyString) "-loop")
              || (failConcat f && String.eqb (nth 1 args EmptyString) "-f")),
        e);
     w_readFile := fun e _ => (if failRead f then None else Some [], e);
     w_createObjectURL := fun e _ _ => ("blob:video", e) |}.

(* ================================================================== *)
(** * Properties: numbers and [clamp] *)
(* ================================================================== *)

Section Numbers.

Lemma Qle_bool_total (p q : Q) : Qle_bool p q = false -> Qle_bool q p = true.
Proof.
  intros H. apply Qle_bool_iff. apply Qlt_le_weak. apply Qnot_le_lt.
  intros Hle. apply Qle_bool_iff in Hle. congruence.
Qed.

Lemma Qle_bool_refl (p : Q) : Qle_bool p p = true.
Proof. apply Qle_bool_iff. apply Qle_refl. Qed.

Lemma Qle_bool_trans (p q r : Q) :
  Qle_bool p q = true -> Qle_bool q r = true -> Qle_bool p r = true.
Proof.
  rewrite !Qle_bool_iff. apply Qle_trans.
Qed.

Ltac num_simpl := simpl in *; try congruence; try reflexivity.

(** [Math.max] is an upper bound of its arguments, and one of them. *)
Lemma Math_max_ge_l (a b : number) :
  a <> NaN -> b <> NaN -> le a (Math_max a b).
Proof.
  unfold le. intros Ha Hb. destruct a as [| | p |], b as [| | q |]; num_simpl.
  all: try (destruct (Qle_bool p q) eqn:E; simpl); auto using Qle_bool_refl.
Qed.

Lemma Math_max_ge_r (a b : number) :
  a <> NaN -> b <> NaN -> le b (Math_max a b).
Proof.
  unfold le. intros Ha Hb. destruct a as [| | p |], b as [| | q |]; num_simpl.
  all: try (destruct (Qle_bool p q) eqn:E; simpl);
    auto using Qle_bool_refl, Qle_bool_total.
Qed.

Lemma Math_max_cases (a b : number) :
  a <> NaN -> b <> NaN -> Math_max a b = a \/ Math_max a b = b.
Proof.
  intros Ha Hb. destruct a as [| | p |], b as [| | q |]; num_simpl; auto.
  all: try (destruct (Qle_bool p q)); auto.
Qed.

Lemma Math_min_le_l (a b : number) :
  a <> NaN -> b <> NaN -> le (Math_min a b) a.
Proof.
  unfold le. intros Ha Hb. destruct a as [| | p |], b as [| | q |]; num_simpl.
  all: try (destruct (Qle_bool p q) eqn:E; simpl);
    auto using Qle_bool_refl, Qle_bool_total.
Qed.

Lemma Math_min_cases (a b : number) :
  a <> NaN -> b <> NaN -> Math_min a b = a \/ Math_min a b = b.
Proof.
  intros Ha Hb. destruct a as [| | p |], b as [| | q |]; num_simpl; auto.
  all: try (destruct (Qle_bool p q)); auto.
Qed.

Lemma Math_min_not_NaN (a b : number) :
  a <> NaN -> b <> NaN -> Math_min a b <> NaN.
Proof.
  intros Ha Hb. destruct (Math_min_cases a b Ha Hb) as [E | E]; rewrite E; auto.
Qed.

Lemma Math_max_NaN_r (a : number) : Math_max a NaN = NaN.
Proof. destruct a; reflexivity. Qed.

Lemma Math_min_NaN_r (a : number) : Math_min a NaN = NaN.
Proof. destruct a; reflexivity. Qed.

(** [clamp] keeps NaN. *)
Lemma clamp_NaN (lo hi : number) : clamp NaN lo hi = NaN.
Proof.
  unfold clamp. rewrite Math_min_NaN_r. apply Math_max_NaN_r.
Qed.

(** Between ordered bounds, [clamp] of a number that is not NaN lies
    within the bounds. *)
Lemma clamp_between (n lo hi : number) :
  n <> NaN -> lo <> NaN -> hi <> NaN -> le lo hi ->
  le lo (clamp n lo hi) /\ le (clamp n lo hi) hi.
Proof.
  intros Hn Hlo Hhi Hle. unfold clamp.
  pose proof (Math_min_not_NaN hi n Hhi Hn) as Hm.
  split.
  - apply Math_max_ge_l; assumption.
  - destruct (Math_max_cases lo (Math_min hi n) Hlo Hm) as [E | E]; rewrite E.
    + exact Hle.
    + apply Math_min_le_l; assumption.
Qed.

(** [clamp] leaves a number within the bounds as it is, up to the
    equality of rationals. *)
Lemma clamp_inside (q : Q) :
  (1 # 5 <= q)%Q -> (q <= 120 # 1)%Q ->
  exists q', clamp (Num q) lit_0_2 lit_120 = Num q' /\ (q' == q)%Q.
Proof.
  intros H1 H2. unfold clamp, lit_0_2, lit_120. simpl.
  destruct (Qle_bool (120 # 1) q) eqn:E; simpl.
  - apply Qle_bool_iff in E.
    assert (Hq : (q == 120 # 1)%Q) by (apply Qle_antisym; assumption).
    exists (120 # 1)%Q. split; [reflexivity | symmetry; exact Hq].
  - destruct (Qle_bool (1 # 5) q) eqn:E1.
    + exists q. split; reflexivity.
    + apply Qle_bool_iff in H1. congruence.
Qed.


End Numbers.




(* ================================================================== *)
(** * Properties: strings, [extOf] and [escapeDrawtext] *)
(* ================================================================== *)

Section Strings.

Lemma append_nil_r (s : string) : s ++ EmptyString = s.
Proof. induction s as [| c s IH]; simpl; [reflexivity | now rewrite IH]. Qed.

Lemma append_assoc (a b c : string) : (a ++ b) ++ c = a ++ b ++ c.
Proof. induction a as [| x a IH]; simpl; [reflexivity | now rewrite IH]. Qed.

Lemma length_append (a b : string) :
  String.length (a ++ b) = (String.length a + String.length b)%nat.
Proof. induction a as [| x a IH]; simpl; [reflexivity | now rewrite IH]. Qed.

Lemma append_not_self (a b : string) : b <> EmptyString -> a <> a ++ b.
Proof.
  intros Hb E. apply (f_equal String.length) in E. rewrite length_append in E.
  destruct b; [congruence | simpl in E; lia].
Qed.

Lemma replaceAll_app (c : ascii) (r a b : string) :
  replaceAll c r (a ++ b) = replaceAll c r a ++ replaceAll c r b.
Proof.
  induction a as [| x a IH]; simpl; [reflexivity |].
  destruct (Ascii.eqb x c); rewrite IH; simpl;
    [now rewrite append_assoc | reflexivity].
Qed.

Lemma occurs_app (c : ascii) (a b : string) :
  occurs c (a ++ b) = occurs c a || occurs c b.
Proof.
  induction a as [| x a IH]; simpl; [reflexivity |].
  rewrite IH. now rewrite orb_assoc.
Qed.

Lemma upTo_app (c : ascii) (a b : string) :
  occurs c a = false -> upTo c (a ++ b) = a ++ upTo c b.
Proof.
  induction a as [| x a IH]; simpl; [reflexivity |].
  intros H. apply orb_false_iff in H. destruct H as [Hx Ha].
  rewrite Hx. now rewrite IH.
Qed.

(** ** [lastIndexOf], [slice] and [extOf] *)

Lemma prefix_dot (a : ascii) (s : string) :
  prefix "." (String a s) = Ascii.eqb a ".".
Proof.
  cbn [prefix]. destruct (ascii_dec "." a) as [E | E].
  - subst a. now destruct s.
  - symmetry. apply Ascii.eqb_neq. congruence.
Qed.

Lemma lastIndexOf_from_absent (s : string) (pos found : Z) :
  occurs "." s = false -> lastIndexOf_from "." s pos found = found.
Proof.
  revert pos found. induction s as [| a s IH]; intros pos found H.
  - reflexivity.
  - cbn [occurs] in H. apply orb_false_iff in H. destruct H as [Ha Hs].
    cbn [lastIndexOf_from]. rewrite prefix_dot, Ha. now apply IH.
Qed.

Lemma lastIndexOf_from_last (pre suf : string) (pos found : Z) :
  occurs "." suf = false ->
  lastIndexOf_from "." (pre ++ "." ++ suf) pos found = pos + JS.length pre.
Proof.
  intros Hsuf. revert pos found.
  induction pre as [| a pre IH]; intros pos found.
  - cbn [append lastIndexOf_from]. rewrite prefix_dot.
    rewrite lastIndexOf_from_absent by assumption.
    unfold JS.length. simpl. lia.
  - cbn [append lastIndexOf_from]. rewrite IH.
    unfold JS.length. cbn [String.length]. lia.
Qed.

Lemma substring_skip (pre rest : string) (m : nat) :
  substring (String.length pre) m (pre ++ rest) = substring 0 m rest.
Proof. induction pre as [| a pre IH]; simpl; [reflexivity | exact IH]. Qed.

Lemma substring_all (s : string) : substring 0 (String.length s) s = s.
Proof. induction s as [| a s IH]; simpl; [reflexivity | now rewrite IH]. Qed.

Lemma slice_suffix (pre rest : string) :
  slice (pre ++ rest) (JS.length pre) = rest.
Proof.
  unfold slice, JS.length. rewrite length_append.
  replace (Z.of_nat (String.length pre) <? 0) with false
    by (symmetry; apply Z.ltb_ge; lia).
  rewrite Z.min_l by lia.
  rewrite Nat2Z.id.
  replace (Z.to_nat (Z.of_nat (String.length pre + String.length rest)
                       - Z.of_nat (String.length pre)))
    with (String.length rest) by lia.
  rewrite substring_skip. apply substring_all.
Qed.

(** [extOf] of a name without a dot is empty. *)
Lemma extOf_no_dot (s : string) : occurs "." s = false -> extOf s = EmptyString.
Proof.
  intros H. unfold extOf, lastIndexOf.
  now rewrite lastIndexOf_from_absent.
Qed.

(** [extOf] of a name is the text from its last dot on. *)
Lemma extOf_last_dot (pre suf : string) :
  occurs "." suf = false -> extOf (pre ++ "." ++ suf) = "." ++ suf.
Proof.
  intros H. unfold extOf, lastIndexOf.
  rewrite lastIndexOf_from_last by assumption.
  replace (0 <=? 0 + JS.length pre) with true
    by (symmetry; apply Z.leb_le; unfold JS.length; lia).
  rewrite Z.add_0_l. apply slice_suffix.
Qed.

(** Every name either has no dot or splits at its last dot. *)
Lemma last_dot_split (s : string) :
  occurs "." s = false
  \/ exists pre suf, s = pre ++ "." ++ suf /\ occurs "." suf = false.
Proof.
  induction s as [| a s IH].
  - left. reflexivity.
  - destruct IH as [Hs | [pre [suf [E Hsuf]]]].
    + destruct (Ascii.eqb a ".") eqn:Ea.
      * right. apply Ascii.eqb_eq in Ea. subst a.
        exists EmptyString, s. split; [reflexivity | assumption].
      * left. cbn [occurs]. now rewrite Ea, Hs.
    + right. exists (String a pre), suf. split; [| assumption].
      rewrite E. reflexivity.
Qed.

End Strings.

(** C10.  The staged name of the item at index [i] is ["input_"], the
    decimal index and [extOf] of the file name; [extOf] is the text from
    the last dot on when the name has a dot and the empty string otherwise,
    so a file name without a dot is staged as ["input_" ++ i] alone. *)
Theorem staged_input_name :
  (forall i it,
     inputName i it = "input_" ++ String_int (Z.of_nat i) ++ extOf (name (file it)))
  /\ (forall pre suf,
        occurs "." suf = false -> extOf (pre ++ "." ++ suf) = "." ++ suf)
  /\ (forall s, occurs "." s = false -> extOf s = EmptyString)
  /\ (forall i it,
        occurs "." (name (file it)) = false ->
        inputName i it = "input_" ++ String_int (Z.of_nat i)).
Proof.
  split; [reflexivity |].
  split; [exact extOf_last_dot |].
  split; [exact extOf_no_dot |].
  intros i it H. unfold inputName.
  rewrite (extOf_no_dot _ H). now rewrite append_nil_r.
Qed.

(** The three sample files: [one.png], [archive.tar.gz] and [three]. *)
Lemma staged_input_name_witness :
  extOf ("archive.tar" ++ "." ++ "gz") = ".gz"
  /\ extOf "three" = EmptyString
  /\ inputName 2 (mkMediaItem "c" (mkFile "three" []) " " (Num (1 # 10))) = "input_2".
Proof.
  destruct staged_input_name as [_ [H2 [H3 H4]]].
  split; [| split].
  - apply (H2 "archive.tar" "gz"). reflexivity.
  - apply (H3 "three"). reflexivity.
  - apply (H4 2%nat (mkMediaItem "c" (mkFile "three" []) " " (Num (1 # 10)))).
    reflexivity.
Defined.

Section Escaping.

Lemma eqb_sym_false (a b : ascii) : Ascii.eqb a b = false -> Ascii.eqb b a = false.
Proof. rewrite Ascii.eqb_sym. auto. Qed.

(** The three replacements of [escapeDrawtext] amount to one pass. *)
Lemma escapeDrawtext_one_pass (s : string) :
  escapeDrawtext s = flatMap escapeChar s.
Proof.
  unfold escapeDrawtext.
  induction s as [| a s IH]; [reflexivity |].
  cbn [flatMap]. rewrite <- IH. unfold escapeChar.
  cbn [replaceAll].
  destruct (Ascii.eqb a ":") eqn:E1.
  { rewrite !replaceAll_app. reflexivity. }
  cbn [replaceAll].
  destruct (Ascii.eqb a "'") eqn:E2.
  { rewrite !replaceAll_app. reflexivity. }
  cbn [replaceAll].
  destruct (Ascii.eqb a "\") eqn:E3; reflexivity.
Qed.

Lemma backslash_first_one_pass (s : string) :
  escapeDrawtext_backslash_first s = flatMap escapeChar_backslash_first s.
Proof.
  unfold escapeDrawtext_backslash_first.
  induction s as [| a s IH]; [reflexivity |].
  cbn [flatMap]. rewrite <- IH. unfold escapeChar_backslash_first.
  cbn [replaceAll].
  destruct (Ascii.eqb a "\") eqn:E1.
  { rewrite !replaceAll_app. reflexivity. }
  cbn [replaceAll].
  destruct (Ascii.eqb a "'") eqn:E2.
  { rewrite !replaceAll_app. reflexivity. }
  cbn [replaceAll].
  destruct (Ascii.eqb a ":") eqn:E3; reflexivity.
Qed.

Lemma unescape_plain (a : ascii) (s : string) :
  Ascii.eqb a "\" = false -> unescape (String a s) = String a (unescape s).
Proof. intros H. cbn [unescape]. now rewrite H. Qed.

Lemma unescape_escaped (d : ascii) (s : string) :
  unescape (String "\" (String d s)) = String d (unescape s).
Proof. reflexivity. Qed.

(** Reading back what [escapeDrawtext] wrote. *)
Lemma unescape_escapeDrawtext (s : string) :
  unescape (escapeDrawtext s) = flatMap readBack s.
Proof.
  rewrite escapeDrawtext_one_pass.
  induction s as [| a s IH]; [reflexivity |].
  cbn [flatMap]. unfold escapeChar at 1, readBack at 1.
  destruct (Ascii.eqb a ":") eqn:E1.
  { cbn [append]. rewrite unescape_escaped.
    rewrite unescape_plain by reflexivity. now rewrite IH. }
  destruct (Ascii.eqb a "'") eqn:E2.
  { cbn [append]. rewrite unescape_escaped.
    rewrite unescape_plain by reflexivity. now rewrite IH. }
  destruct (Ascii.eqb a "\") eqn:E3.
  { apply Ascii.eqb_eq in E3. subst a.
    cbn [append]. rewrite unescape_escaped. now rewrite IH. }
  cbn [append]. rewrite unescape_plain by assumption. now rewrite IH.
Qed.

(** The backslash-first order reads back as the text it was given. *)
Lemma backslash_first_round_trip (s : string) :
  unescape (escapeDrawtext_backslash_first s) = s.
Proof.
  rewrite backslash_first_one_pass.
  induction s as [| a s IH]; [reflexivity |].
  cbn [flatMap]. unfold escapeChar_backslash_first at 1.
  destruct (Ascii.eqb a "\") eqn:E1.
  { apply Ascii.eqb_eq in E1. subst a.
    cbn [append]. rewrite unescape_escaped. now rewrite IH. }
  destruct (Ascii.eqb a "'") eqn:E2.
  { apply Ascii.eqb_eq in E2. subst a.
    cbn [append]. rewrite unescape_escaped. now rewrite IH. }
  destruct (Ascii.eqb a ":") eqn:E3.
  { apply Ascii.eqb_eq in E3. subst a.
    cbn [append]. rewrite unescape_escaped. now rewrite IH. }
  cbn [append]. rewrite unescape_plain by assumption. now rewrite IH.
Qed.

Lemma readBack_fixed (s : string) :
  flatMap readBack s = s <-> occurs ":" s = false /\ occurs "'" s = false.
Proof.
  induction s as [| a s IH]; [simpl; tauto |].
  cbn [flatMap occurs]. unfold readBack at 1.
  destruct (Ascii.eqb a ":") eqn:E1.
  { apply Ascii.eqb_eq in E1. subst a. cbn [append orb]. split.
    - intros H. inversion H.
    - intros [H _]. discriminate. }
  destruct (Ascii.eqb a "'") eqn:E2.
  { apply Ascii.eqb_eq in E2. subst a. cbn [append orb]. split.
    - intros H. inversion H.
    - intros [_ H]. discriminate. }
  cbn [append orb]. split.
  - intros H. injection H as H'. apply IH. exact H'.
  - intros H. apply IH in H. now rewrite H.
Qed.

(** What [escapeDrawtext] wrote reads back as the caption exactly when
    the caption has neither a colon nor a single quote. *)
Lemma escapeDrawtext_round_trip_iff (s : string) :
  unescape (escapeDrawtext s) = s
  <-> occurs ":" s = false /\ occurs "'" s = false.
Proof. rewrite unescape_escapeDrawtext. apply readBack_fixed. Qed.

End Escaping.

(** C1, at the caption ["Rome: day 1"] and at a lone colon, quote and
    backslash.  [escapeDrawtext] runs the backslash replacement last, so
    the backslash it put before the colon is doubled and the text read
    back keeps a backslash the caption did not have; with the backslash
    replacement first the caption is read back. *)
Theorem escapeDrawtext_doubles_inserted_backslash :
  escapeDrawtext ":" = "\\:"
  /\ escapeDrawtext "'" = "\\'"
  /\ escapeDrawtext "\" = "\\"
  /\ escapeDrawtext "Rome: day 1" = "Rome\\: day 1"
  /\ unescape (escapeDrawtext "Rome: day 1") = "Rome\: day 1"
  /\ unescape (escapeDrawtext "Rome: day 1") <> "Rome: day 1"
  /\ escapeDrawtext_backslash_first "Rome: day 1" = "Rome\: day 1"
  /\ unescape (escapeDrawtext_backslash_first "Rome: day 1") = "Rome: day 1"
  /\ escapeDrawtext "Rome: day 1" <> escapeDrawtext_backslash_first "Rome: day 1".
Proof.
  repeat split; try reflexivity; vm_compute; discriminate.
Qed.

(* ================================================================== *)
(** * Properties: the filter expression *)
(* ================================================================== *)

Section FilterExpression.

(** ** Decimal numerals *)

Lemma occurs_cons_false (c a : ascii) (s : string) :
  Ascii.eqb a c = false -> occurs c s = false -> occurs c (String a s) = false.
Proof. intros Ha Hs. cbn [occurs]. now rewrite Ha, Hs. Qed.

Lemma string_of_uint_chars (c : ascii) (d : Decimal.uint) :
  occurs c "0123456789" = false ->
  occurs c (NilEmpty.string_of_uint d) = false.
Proof.
  intros H. cbn [occurs] in H.
  repeat (apply orb_false_iff in H; destruct H as [? H]).
  induction d; cbn [NilEmpty.string_of_uint];
    try reflexivity; apply occurs_cons_false; assumption.
Qed.

(** A numeral is made of digits and of a minus sign. *)
Lemma String_int_chars (c : ascii) (z : Z) :
  occurs c "-0123456789" = false -> occurs c (String_int z) = false.
Proof.
  intros H. cbn [occurs] in H. apply orb_false_iff in H. destruct H as [Hm Hd].
  assert (Hu : forall d, occurs c (NilZero.string_of_uint d) = false).
  { intros d. pose proof (string_of_uint_chars c d Hd) as Hn.
    destruct d; try exact Hn.
    cbn [NilZero.string_of_uint occurs] in *.
    cbn [occurs] in Hd. apply orb_false_iff in Hd. destruct Hd as [H0 _].
    now rewrite H0. }
  unfold String_int.
  destruct (Z.to_int z) as [d | d]; cbn [NilZero.string_of_int].
  - apply Hu.
  - apply occurs_cons_false; [assumption | apply Hu].
Qed.

(** ** Cutting an expression into stages *)

Lemma splitOn_not_nil (c : ascii) (s : string) : splitOn c s <> [].
Proof.
  destruct s as [| a s]; cbn [splitOn]; [discriminate |].
  destruct (Ascii.eqb a c); [discriminate |].
  destruct (splitOn c s); discriminate.
Qed.

Lemma splitOn_app (c : ascii) (a b : string) :
  occurs c a = false ->
  splitOn c (a ++ b) = (a ++ hd EmptyString (splitOn c b)) :: tl (splitOn c b).
Proof.
  induction a as [| x a IH]; intros H.
  - cbn [append]. destruct (splitOn c b) eqn:E; [| reflexivity].
    now apply splitOn_not_nil in E.
  - cbn [occurs] in H. apply orb_false_iff in H. destruct H as [Hx Ha].
    cbn [append splitOn]. rewrite Hx, (IH Ha). reflexivity.
Qed.

(** The three stages of [scalePad]. *)
Lemma scalePad_stages (w h : Z) :
  splitOn "," (scalePad w h)
  = [ "scale=" ++ String_int w ++ ":-2:force_original_aspect_ratio=decrease";
      "pad=" ++ String_int w ++ ":" ++ String_int h
        ++ ":(ow-iw)/2:(oh-ih)/2:color=black";
      "setsar=1" ].
Proof.
  assert (Hw : occurs "," (String_int w) = false)
    by (apply String_int_chars; reflexivity).
  assert (Hh : occurs "," (String_int h) = false)
    by (apply String_int_chars; reflexivity).
  unfold scalePad.
  rewrite <- (append_assoc "scale=" (String_int w)).
  rewrite splitOn_app
    by (rewrite occurs_app; cbn [occurs]; rewrite Hw; reflexivity).
  change (":-2:force_original_aspect_ratio=decrease,pad=" ++ String_int w ++ ":"
            ++ String_int h ++ ":(ow-iw)/2:(oh-ih)/2:color=black,setsar=1")
    with (":-2:force_original_aspect_ratio=decrease"
            ++ String "," ("pad=" ++ String_int w ++ ":" ++ String_int h
                             ++ ":(ow-iw)/2:(oh-ih)/2:color=black,setsar=1")).
  rewrite (splitOn_app "," ":-2:force_original_aspect_ratio=decrease") by reflexivity.
  cbn [splitOn Ascii.eqb Bool.eqb andb hd tl].
  rewrite <- (append_assoc "pad=" (String_int w)).
  rewrite <- (append_assoc ("pad=" ++ String_int w) ":").
  rewrite <- (append_assoc (("pad=" ++ String_int w) ++ ":") (String_int h)).
  rewrite splitOn_app
    by (rewrite !occurs_app; cbn [occurs]; rewrite Hw, Hh; reflexivity).
  change (":(ow-iw)/2:(oh-ih)/2:color=black,setsar=1")
    with (":(ow-iw)/2:(oh-ih)/2:color=black" ++ String "," "setsar=1").
  rewrite (splitOn_app "," ":(ow-iw)/2:(oh-ih)/2:color=black") by reflexivity.
  cbn [splitOn Ascii.eqb Bool.eqb andb hd tl].
  rewrite !append_assoc. rewrite !append_nil_r. reflexivity.
Qed.

(** The options of the pad stage. *)
Lemma pad_stage_options (w h : Z) :
  splitOn ":" ("pad=" ++ String_int w ++ ":" ++ String_int h
                 ++ ":(ow-iw)/2:(oh-ih)/2:color=black")
  = [ "pad=" ++ String_int w; String_int h; "(ow-iw)/2"; "(oh-ih)/2";
      "color=black" ].
Proof.
  assert (Hw : occurs ":" (String_int w) = false)
    by (apply String_int_chars; reflexivity).
  assert (Hh : occurs ":" (String_int h) = false)
    by (apply String_int_chars; reflexivity).
  rewrite <- (append_assoc "pad=" (String_int w)).
  rewrite splitOn_app
    by (rewrite occurs_app; cbn [occurs]; rewrite Hw; reflexivity).
  cbn [append splitOn Ascii.eqb Bool.eqb andb hd tl].
  rewrite splitOn_app by assumption.
  cbn [append splitOn Ascii.eqb Bool.eqb andb hd tl].
  rewrite !append_nil_r. reflexivity.
Qed.

End FilterExpression.

(** C2, what the expression of the code says.  The expression has three
    stages: a scale stage that names the target width alone (its height
    argument is the constant [-2]), a pad stage with the target width and
    height, centred, filled with black, and [setsar=1].  The target height
    does not occur in the scale stage: for one width it is the same text
    whatever the height, so whatever size an engine gives the scaled image,
    it gives the same one for every target height. *)
Theorem scale_stage_ignores_target_height :
  (forall w h,
     splitOn "," (scalePad w h)
     = [ "scale=" ++ String_int w ++ ":-2:force_original_aspect_ratio=decrease";
         "pad=" ++ String_int w ++ ":" ++ String_int h
           ++ ":(ow-iw)/2:(oh-ih)/2:color=black";
         "setsar=1" ])
  /\ (forall w h h',
        hd EmptyString (splitOn "," (scalePad w h))
        = hd EmptyString (splitOn "," (scalePad w h')))
  /\ (forall (scaled : string -> Z * Z -> Z * Z) w h h' source,
        scaled (hd EmptyString (splitOn "," (scalePad w h))) source
        = scaled (hd EmptyString (splitOn "," (scalePad w h'))) source)
  /\ splitOn ":" (hd EmptyString (splitOn "," (scalePad 1280 720)))
     = [ "scale=1280"; "-2"; "force_original_aspect_ratio=decrease" ]
  /\ scalePad 1280 720
     = "scale=1280:-2:force_original_aspect_ratio=decrease,pad=1280:720:(ow-iw)/2:(oh-ih)/2:color=black,setsar=1".
Proof.
  split; [exact scalePad_stages |].
  split; [intros w h h'; now rewrite !scalePad_stages |].
  split; [intros scaled w h h' source; now rewrite !scalePad_stages |].
  split; reflexivity.
Qed.

Section Overlay.

Lemma length_pos_iff (s : string) : (JS.length s >? 0) = true <-> s <> EmptyString.
Proof.
  unfold JS.length. destruct s as [| a s]; cbn [String.length].
  - split; [discriminate | congruence].
  - split; [discriminate |]. intros _. apply Z.gtb_lt. lia.
Qed.

Lemma truthy_iff (s : string) : truthy s = true <-> s <> EmptyString.
Proof. destruct s; simpl; split; congruence. Qed.

(** [hasCaption]: a caption that is not blank, and a font path. *)
Lemma hasCaption_iff (cap fontPath : string) :
  hasCaption cap fontPath = true
  <-> trim cap <> EmptyString /\ fontPath <> EmptyString.
Proof.
  unfold hasCaption. rewrite andb_true_iff, length_pos_iff, truthy_iff. tauto.
Qed.

(** [Math.round(n / 18)] and [Math.round(n / 8)] in integer arithmetic. *)
Lemma Math_round_div_18 (n : Z) :
  Math_round (inject_Z n / inject_Z 18) = (n + 9) / 18.
Proof.
  unfold Math_round. rewrite Zdiv_Qdiv. apply Qfloor_comp.
  rewrite inject_Z_plus. field.
Qed.

Lemma Math_round_div_8 (n : Z) :
  Math_round (inject_Z n / inject_Z 8) = (n + 4) / 8.
Proof.
  unfold Math_round. rewrite Zdiv_Qdiv. apply Qfloor_comp.
  rewrite inject_Z_plus. field.
Qed.

(** The font size is the integer nearest to the eighteenth of the
    shorter side, a tie going up. *)
Lemma fontSize_nearest (w h : Z) :
  fontSize w h = (Z.min w h + 9) / 18
  /\ 18 * fontSize w h - 9 <= Z.min w h < 18 * fontSize w h + 9.
Proof.
  unfold fontSize. rewrite Math_round_div_18. split; [reflexivity |].
  pose proof (Z.div_mod (Z.min w h + 9) 18 ltac:(lia)) as E.
  pose proof (Z.mod_pos_bound (Z.min w h + 9) 18 ltac:(lia)) as B.
  lia.
Qed.

Lemma bottomOffset_nearest (h : Z) :
  bottomOffset h = (h + 4) / 8
  /\ 8 * bottomOffset h - 4 <= h < 8 * bottomOffset h + 4.
Proof.
  unfold bottomOffset. rewrite Math_round_div_8. split; [reflexivity |].
  pose proof (Z.div_mod (h + 4) 8 ltac:(lia)) as E.
  pose proof (Z.mod_pos_bound (h + 4) 8 ltac:(lia)) as B.
  lia.
Qed.

(** The overlay stage as a list of options. *)
Lemma drawtext_options (w h : Z) (cap fontPath : string) :
  drawtext w h cap fontPath
  = "drawtext="
      ++ join ":"
           [ "fontfile=" ++ fontPath;
             "text='" ++ escapeDrawtext cap ++ "'";
             "fontcolor=white";
             "fontsize=" ++ String_int (fontSize w h);
             "x=(w-text_w)/2";
             "y=h-(" ++ String_int (bottomOffset h) ++ ")";
             "shadowcolor=0x000000@0.5";
             "shadowx=2";
             "shadowy=2" ].
Proof.
  unfold drawtext, join. cbn [String.concat].
  rewrite !append_assoc. reflexivity.
Qed.

End Overlay.

(** C6.  The expression of an item is [scalePad] followed by a comma and a
    further stage exactly when the trimmed caption is not empty and there
    is a font path; that stage is then the text overlay, with white text,
    the font size [Math.round(Math.min(w, h) / 18)], [x] at the horizontal
    centre, [y] at the frame height minus [Math.round(h / 8)] and a shadow
    offset of 2 and 2; otherwise the expression is [scalePad] alone. *)
Theorem overlay_iff_caption_and_font (w h : Z) (cap fontPath : string) :
  ((exists stage, vf w h cap fontPath = scalePad w h ++ "," ++ stage)
   <-> (trim cap <> EmptyString /\ fontPath <> EmptyString))
  /\ (hasCaption cap fontPath = true ->
        vf w h cap fontPath
        = scalePad w h ++ "," ++ "drawtext="
            ++ join ":"
                 [ "fontfile=" ++ fontPath;
                   "text='" ++ escapeDrawtext cap ++ "'";
                   "fontcolor=white";
                   "fontsize="
                     ++ String_int (Math_round (inject_Z (Z.min w h) / inject_Z 18));
                   "x=(w-text_w)/2";
                   "y=h-(" ++ String_int (Math_round (inject_Z h / inject_Z 8)) ++ ")";
                   "shadowcolor=0x000000@0.5";
                   "shadowx=2";
                   "shadowy=2" ])
  /\ (hasCaption cap fontPath = false -> vf w h cap fontPath = scalePad w h)
  /\ (Math_round (inject_Z (Z.min w h) / inject_Z 18) = (Z.min w h + 9) / 18
      /\ Math_round (inject_Z h / inject_Z 8) = (h + 4) / 8).
Proof.
  split; [| split; [| split]].
  - rewrite <- hasCaption_iff. unfold vf.
    destruct (hasCaption cap fontPath); split.
    + reflexivity.
    + intros _. eexists. reflexivity.
    + intros [stage E]. exfalso. revert E. apply append_not_self. discriminate.
    + discriminate.
  - intros H. unfold vf. rewrite H. rewrite drawtext_options. reflexivity.
  - intros H. unfold vf. now rewrite H.
  - split; [apply Math_round_div_18 | apply Math_round_div_8].
Qed.

(** The first sample item at 1280 by 720 with the font staged. *)
Lemma overlay_iff_caption_and_font_witness :
  vf 1280 720 "Rome: day 1" "font.ttf"
  = "scale=1280:-2:force_original_aspect_ratio=decrease,pad=1280:720:(ow-iw)/2:(oh-ih)/2:color=black,setsar=1,drawtext=fontfile=font.ttf:text='Rome\\: day 1':fontcolor=white:fontsize=40:x=(w-text_w)/2:y=h-(90):shadowcolor=0x000000@0.5:shadowx=2:shadowy=2"
  /\ vf 1280 720 "  " "font.ttf" = scalePad 1280 720
  /\ vf 1280 720 "Rome: day 1" EmptyString = scalePad 1280 720.
Proof.
  split; [| split].
  - destruct (overlay_iff_caption_and_font 1280 720 "Rome: day 1" "font.ttf")
      as [_ [H _]].
    rewrite H by reflexivity. reflexivity.
  - destruct (overlay_iff_caption_and_font 1280 720 "  " "font.ttf")
      as [_ [_ [H _]]].
    apply H. reflexivity.
  - destruct (overlay_iff_caption_and_font 1280 720 "Rome: day 1" EmptyString)
      as [_ [_ [H _]]].
    apply H. reflexivity.
Defined.

(* ================================================================== *)
(** * Properties: the run of [createVideo] *)
(* ================================================================== *)

Section Events.

Lemma execs_app (a b : list Event) : execs (a ++ b) = (execs a ++ execs b)%list.
Proof. unfold execs. apply flat_map_app. Qed.

Lemma reads_app (a b : list Event) : reads (a ++ b) = (reads a ++ reads b)%list.
Proof. unfold reads. apply flat_map_app. Qed.

Lemma downloads_app (a b : list Event) :
  downloads (a ++ b) = (downloads a ++ downloads b)%list.
Proof. unfold downloads. apply flat_map_app. Qed.

Lemma In_execs (args : list string) (ok : bool) (evs : list Event) :
  In (Exec args, ok) evs -> In args (execs evs).
Proof.
  intros H. unfold execs. apply in_flat_map.
  exists (Exec args, ok). split; [assumption | left; reflexivity].
Qed.

Lemma In_reads (n : string) (ok : bool) (evs : list Event) :
  In (ReadFile n, ok) evs -> In n (reads evs).
Proof.
  intros H. unfold reads. apply in_flat_map.
  exists (ReadFile n, ok). split; [assumption | left; reflexivity].
Qed.

Lemma In_downloads (u : string) (ok : bool) (evs : list Event) :
  In (FetchFile (FromUrl u), ok) evs -> In (u, ok) (downloads evs).
Proof.
  intros H. unfold downloads. apply in_flat_map.
  exists (FetchFile (FromUrl u), ok). split; [assumption | left; reflexivity].
Qed.


Lemma fatal_app_r (a b : list Event) : fatal b -> fatal (a ++ b).
Proof.
  intros [c [Hin Hc]]. exists c. split; [| assumption].
  apply in_or_app. now right.
Qed.

Lemma startOf_refl {A : Type} (l : list A) : startOf l l.
Proof. exists []. now rewrite app_nil_r. Qed.

Lemma startOf_nil {A : Type} (l : list A) : startOf [] l.
Proof. exists l. reflexivity. Qed.

Lemma startOf_cons {A : Type} (x : A) (l full : list A) :
  startOf l full -> startOf (x :: l) (x :: full).
Proof. intros [rest E]. exists rest. now rewrite E. Qed.



Lemma startOf_In {A : Type} (l full : list A) (x : A) :
  startOf l full -> In x l -> In x full.
Proof. intros [rest E] H. rewrite E. apply in_or_app. now left. Qed.

End Events.

Section Run.

Variable String_number : number -> string.
Variable Env : Type.
Variable W : World Env.
Variable p : Snapshot.

Lemma fatal_here (c : Call) (l : list Event) :
  (forall u, c <> FetchFile (FromUrl u)) -> fatal ((c, false) :: l).
Proof. intros H. exists c. split; [left; reflexivity | exact H]. Qed.

Lemma fatal_skip (e : Event) (l : list Event) : fatal l -> fatal (e :: l).
Proof.
  intros [c [Hin Hc]]. exists c. split; [right; assumption | exact Hc].
Qed.

Ltac find_fatal :=
  repeat first [ apply fatal_here; solve [intros; discriminate]
               | apply fatal_skip ].

(** One step of a run: the calls into the world, by cases on what the
    world answers. *)
Ltac world_step :=
  match goal with
  | |- context [w_toBlobURL W ?e ?u ?m] =>
      destruct (w_toBlobURL W e u m) as [[?url |] ?e'] eqn:?
  | |- context [w_load W ?e ?a ?b ?c] =>
      destruct (w_load W e a b c) as [[|] ?e'] eqn:?
  | |- context [w_listDir W ?e ?d] =>
      destruct (w_listDir W e d) as [[?files |] ?e'] eqn:?
  | |- context [w_deleteFile W ?e ?f] =>
      destruct (w_deleteFile W e f) as [[|] ?e'] eqn:?
  | |- context [w_fetchFile W ?e ?src] =>
      destruct (w_fetchFile W e src) as [[?data |] ?e'] eqn:?
  | |- context [w_writeFile W ?e ?f ?d] =>
      destruct (w_writeFile W e f d) as [[|] ?e'] eqn:?
  | |- context [w_exec W ?e ?a] =>
      destruct (w_exec W e a) as [[?fractions [|]] ?e'] eqn:?
  | |- context [w_readFile W ?e ?f] =>
      destruct (w_readFile W e f) as [[?data |] ?e'] eqn:?
  | |- context [w_createObjectURL W ?e ?d ?m] =>
      destruct (w_createObjectURL W e d m) as [?url ?e'] eqn:?
  end; cbn.

Ltac unfold_calls :=
  unfold toBlobURL, load, listDir, deleteFile, fetchFile, writeFile, readFile,
    createObjectURL, exec, call_option, call_bool, setIsBusy, setProgress,
    setMessage, setVideoUrl, setFfmpegRef, getFfmpegRef, bind, try_catch,
    try_finally, ret.

Ltac projections :=
  unfold outcomeOf, stateOf, eventsOf in *; cbn [fst snd] in *.

Lemma ensureFFmpeg_spec (s s1 : State Env) (o : Outcome unit) (e1 : list Event) :
  ensureFFmpeg W s = (o, s1, e1) ->
  execs e1 = [] /\ reads e1 = [] /\ downloads e1 = []
  /\ (o = Throw -> fatal e1).
Proof.
  unfold ensureFFmpeg. unfold_calls.
  destruct (ffmpegRef s); cbn.
  { intros E. inversion E. repeat split; discriminate. }
  repeat world_step; intros E; inversion E; subst;
    repeat split; try discriminate; intros _; find_fatal.
Qed.

Lemma deleteStale_spec (f : FSNode) (s s1 : State Env) (o : Outcome unit)
    (e1 : list Event) :
  deleteStale W f s = (o, s1, e1) ->
  o = Ok tt /\ execs e1 = [] /\ reads e1 = [] /\ downloads e1 = [].
Proof.
  unfold deleteStale.
  destruct (truthy (node_name f) && negb (node_name f =? ".")%string
            && negb (node_name f =? "..")%string).
  - unfold_calls. world_step; intros E; inversion E; subst; auto.
  - unfold ret. intros E; inversion E; subst; auto.
Qed.

Lemma deleteLoop_spec (files : list FSNode) (s s1 : State Env)
    (o : Outcome unit) (e1 : list Event) :
  forEach files (deleteStale W) s = (o, s1, e1) ->
  o = Ok tt /\ execs e1 = [] /\ reads e1 = [] /\ downloads e1 = [].
Proof.
  revert s s1 o e1. induction files as [| f files IH]; intros s s1 o e1.
  - cbn. intros E; inversion E; subst; auto.
  - cbn [forEach]. unfold bind.
    destruct (deleteStale W f s) as [[o' s'] e'] eqn:Ef.
    apply deleteStale_spec in Ef. destruct Ef as [Ho [He [Hr Hd]]]. subst o'.
    destruct (forEach files (deleteStale W) s') as [[o2 s2] e2] eqn:El.
    apply IH in El. destruct El as [Ho2 [He2 [Hr2 Hd2]]].
    intros E; inversion E; subst.
    rewrite execs_app, reads_app, downloads_app.
    rewrite He, Hr, Hd, He2, Hr2, Hd2. auto.
Qed.

Lemma resetFS_spec (s s1 : State Env) (o : Outcome unit) (e1 : list Event) :
  resetFS W s = (o, s1, e1) ->
  o = Ok tt /\ execs e1 = [] /\ reads e1 = [] /\ downloads e1 = [].
Proof.
  unfold resetFS.
  unfold try_catch, bind at 1, listDir, call_option.
  world_step.
  - destruct (forEach files (deleteStale W) (withEnv s e')) as [[o2 s2] e2] eqn:El.
    apply deleteLoop_spec in El. destruct El as [Ho2 [He2 [Hr2 Hd2]]]. subst o2.
    intros E; inversion E; subst. cbn. auto.
  - unfold ret. intros E; inversion E; subst. cbn. auto.
Qed.

Lemma writeFont_spec (s s1 : State Env) (o : Outcome string) (e1 : list Event) :
  writeFont W p s = (o, s1, e1) ->
  execs e1 = [] /\ reads e1 = []
  /\ ((o = Ok "font.ttf" /\ forall c, ~ In (c, false) e1)
      \/ o = Ok EmptyString)
  /\ (forall u ok, In (u, ok) (downloads e1) -> u = fontUrl p).
Proof.
  unfold writeFont. unfold_calls.
  repeat world_step; intros E; inversion E; subst; cbn;
    (split; [reflexivity | split; [reflexivity | split;
       [ first [ right; reflexivity
               | left; split; [reflexivity |];
                 intros c [H | [H | []]]; discriminate ]
       | intros u ok [H | []]; congruence ]]]).
Qed.

(** The font is available exactly when it was downloaded and written:
    [fontPath] is then ["font.ttf"], and empty after a call that threw. *)
Lemma writeFont_available (s : State Env) :
  let r := writeFont W p s in
  (outcomeOf r = Ok "font.ttf"
   /\ exists data,
       eventsOf r = [ (FetchFile (FromUrl (fontUrl p)), true);
                      (WriteFile "font.ttf" data, true) ])
  \/ (outcomeOf r = Ok EmptyString
      /\ exists c, In (c, false) (eventsOf r)).
Proof.
  unfold writeFont. unfold_calls.
  repeat world_step; unfold outcomeOf, eventsOf; cbn [fst snd].
  - left. split; [reflexivity | eexists; reflexivity].
  - right. split; [reflexivity | eexists; right; left; reflexivity].
  - right. split; [reflexivity | eexists; left; reflexivity].
Qed.

Lemma downloads_In (u : string) (ok : bool) (evs : list Event) :
  In (u, ok) (downloads evs) -> In (FetchFile (FromUrl u), ok) evs.
Proof.
  unfold downloads. intros H. apply in_flat_map in H.
  destruct H as [[c b] [Hin Hm]].
  destruct c; try contradiction. destruct src; try contradiction.
  destruct Hm as [E | []]. inversion E; subst. exact Hin.
Qed.

(** The beginning of the run: no command and no read; it throws only
    when the engine cannot be loaded, before any download; a failed
    download of the font leaves [fontPath] empty. *)
Lemma prelude_spec (s s1 : State Env) (o : Outcome string) (e1 : list Event) :
  prelude W p s = (o, s1, e1) ->
  execs e1 = [] /\ reads e1 = []
  /\ match o with
     | Throw => fatal e1 /\ downloads e1 = []
     | Ok fontPath =>
         (fontPath = EmptyString \/ fontPath = "font.ttf")
         /\ (forall u, In (u, false) (downloads e1) -> fontPath = EmptyString)
     end.
Proof.
  unfold prelude, bind.
  destruct (ensureFFmpeg W s) as [[o0 s0] e0] eqn:E0.
  apply ensureFFmpeg_spec in E0. destruct E0 as [Hx0 [Hr0 [Hd0 Hf0]]].
  destruct o0 as [[] |].
  2:{ intros E; inversion E; subst. auto. }
  destruct (resetFS W s0) as [[o2 s2] e2] eqn:E2.
  apply resetFS_spec in E2. destruct E2 as [Ho2 [Hx2 [Hr2 Hd2]]]. subst o2.
  destruct (writeFont W p s2) as [[o3 s3] e3] eqn:E3.
  apply writeFont_spec in E3. destruct E3 as [Hx3 [Hr3 [Hfp Hd3]]].
  intros E; inversion E; subst.
  rewrite !execs_app, !reads_app, !downloads_app.
  rewrite Hx0, Hx2, Hx3, Hr0, Hr2, Hr3, Hd0, Hd2.
  split; [reflexivity | split; [reflexivity |]].
  destruct Hfp as [[Ho Hok] | Ho]; subst o.
  - split; [right; reflexivity |].
    intros u Hu. cbn [app] in Hu. apply downloads_In in Hu.
    now apply Hok in Hu.
  - split; [left; reflexivity | reflexivity].
Qed.

(** ** The loop over the items *)

Lemma renderItem_spec (fontPath : string) (i : nat) (it : MediaItem)
    (s s1 : State Env) (o : Outcome string) (e1 : list Event) :
  renderItem String_number W p fontPath i it s = (o, s1, e1) ->
  reads e1 = [] /\ downloads e1 = []
  /\ (exists ok, hd_error e1 = Some (FetchFile (FromFile (file it)), ok))
  /\ match o with
     | Ok part =>
         part = partName i
         /\ execs e1 = [renderCommand String_number p fontPath i it]
         /\ (forall c, ~ In (c, false) e1)
     | Throw =>
         fatal e1
         /\ (execs e1 = []
             \/ execs e1 = [renderCommand String_number p fontPath i it])
     end.
Proof.
  unfold renderItem. unfold_calls.
  repeat world_step; intros E; inversion E; subst; cbn;
    (split; [reflexivity | split; [reflexivity | split; [eexists; reflexivity |]]]).
  - split; [reflexivity | split; [reflexivity |]].
    intros c [H | [H | [H | []]]]; discriminate.
  - split; [find_fatal | right; reflexivity].
  - split; [find_fatal | left; reflexivity].
  - split; [find_fatal | left; reflexivity].
Qed.

Lemma renderItems_spec (fontPath : string) (its : list MediaItem) :
  forall (i : nat) (acc : list string) (s s1 : State Env)
         (o : Outcome (list string)) (e1 : list Event),
  renderItems String_number W p fontPath i its acc s = (o, s1, e1) ->
  reads e1 = [] /\ downloads e1 = []
  /\ startOf (execs e1) (renderCommands String_number p fontPath i its)
  /\ match o with
     | Ok parts =>
         execs e1 = renderCommands String_number p fontPath i its
         /\ (forall c, ~ In (c, false) e1)
     | Throw => fatal e1
     end.
Proof.
  induction its as [| it rest IH]; intros i acc s s1 o e1.
  - cbn. intros E; inversion E; subst. cbn.
    repeat split; auto. apply startOf_refl.
  - cbn [renderItems renderCommands]. unfold bind.
    destruct (renderItem String_number W p fontPath i it s)
      as [[o' s'] e'] eqn:Eb.
    apply renderItem_spec in Eb. destruct Eb as [Hr [Hd [_ Hb]]].
    destruct o' as [part |].
    + destruct Hb as [Hp [Hx Hok]].
      destruct (renderItems String_number W p fontPath (S i) rest
                  (acc ++ [part]) s') as [[o2 s2] e2] eqn:El.
      apply IH in El. destruct El as [Hr2 [Hd2 [Hs2 Ho2]]].
      intros E; inversion E; subst.
      rewrite reads_app, downloads_app, execs_app, Hr, Hd, Hr2, Hd2, Hx.
      split; [reflexivity | split; [reflexivity | split]].
      * cbn [app]. now apply startOf_cons.
      * destruct o as [parts |].
        -- destruct Ho2 as [Hx2 Hok2]. split; [now rewrite Hx2 |].
           intros c Hc. apply in_app_or in Hc. destruct Hc as [Hc | Hc].
           ++ now apply Hok in Hc.
           ++ now apply Hok2 in Hc.
        -- now apply fatal_app_r.
    + destruct Hb as [Hf Hx].
      intros E; inversion E; subst.
      split; [assumption | split; [assumption | split; [| assumption]]].
      destruct Hx as [Hx | Hx]; rewrite Hx.
      * apply startOf_nil.
      * apply (startOf_cons _ [] _). apply startOf_nil.
Qed.

Lemma renderItems_first (fontPath : string) (it : MediaItem)
    (rest : list MediaItem) (i : nat) (acc : list string) (s : State Env) :
  exists ok,
    hd_error (eventsOf (renderItems String_number W p fontPath i (it :: rest) acc s))
    = Some (FetchFile (FromFile (file it)), ok).
Proof.
  cbn [renderItems]. unfold bind.
  destruct (renderItem String_number W p fontPath i it s)
    as [[o' s'] e'] eqn:Eb.
  apply renderItem_spec in Eb. destruct Eb as [_ [_ [[ok Hh] _]]].
  exists ok. destruct e' as [| e0 e']; [discriminate |].
  destruct o'.
  - destruct (renderItems String_number W p fontPath (S i) rest
                (acc ++ [a]) s') as [[o2 s2] e2].
    exact Hh.
  - exact Hh.
Qed.

(** ** The end of the run *)

Ltac run_finish :=
  unfold finish, concatParts, muxAudio, muxPlan; unfold_calls;
  destruct (audioFile p); repeat world_step;
  intros E; inversion E; subst; cbn.

Lemma finish_spec (parts : list string) (s s1 : State Env) (o : Outcome unit)
    (e1 : list Event) :
  finish W p parts s = (o, s1, e1) ->
  downloads e1 = []
  /\ startOf (execs e1) (concatCommand :: muxPlan p)
  /\ match o with
     | Ok _ =>
         execs e1 = concatCommand :: muxPlan p
         /\ message s1 = successMessage
         /\ (exists url, videoUrl s1 = Some url)
         /\ (forall c, In (c, false) e1 -> c = Exec (muxCommand "final.mp4"))
     | Throw => fatal e1
     end.
Proof.
  run_finish; (split; [reflexivity | split]);
    try solve [find_fatal];
    try solve [apply startOf_refl | apply startOf_nil
              | apply (startOf_cons _ []); apply startOf_nil ].
  all: split; [reflexivity | split; [reflexivity | split; [eexists; reflexivity |]]].
  all: intros c Hc; cbn in Hc;
    repeat (destruct Hc as [Hc | Hc]; [try discriminate; try (inversion Hc; reflexivity) |]);
    try contradiction.
Qed.

(** What is read at the end: the concatenation output, unless the mux
    went through. *)
Lemma finish_reads (parts : list string) (s s1 : State Env) (o : Outcome unit)
    (e1 : list Event) :
  finish W p parts s = (o, s1, e1) ->
  (reads e1 = [] /\ o = Throw)
  \/ (reads e1 = ["output_video.mp4"]
      /\ ~ In (Exec (muxCommand "final.mp4"), true) e1
      /\ (In (ReadFile "output_video.mp4", true) e1 -> o = Ok tt))
  \/ (reads e1 = ["final.mp4"]
      /\ audioFile p <> None
      /\ In (Exec (muxCommand "final.mp4"), true) e1
      /\ ~ In (Exec (muxCommand "final.mp4"), false) e1).
Proof.
  run_finish.
  all: try solve [left; split; reflexivity].
  all: try solve
    [ right; left; split; [reflexivity | split];
      [ intros Hc; cbn in Hc;
        repeat (destruct Hc as [Hc | Hc]; [discriminate |]); contradiction
      | first [ reflexivity
              | intros Hc; cbn in Hc;
                repeat (destruct Hc as [Hc | Hc]; [discriminate |]);
                contradiction ] ] ].
  all: right; right; split; [reflexivity | split; [discriminate | split]].
  all: try solve [cbn; auto 10].
  all: intros Hc; cbn in Hc;
    repeat (destruct Hc as [Hc | Hc]; [discriminate |]); contradiction.
Qed.


(** ** The run as a whole *)

Lemma pipeline_run (s : State Env) :
  pipeline String_number W p s
  = match prelude W p s with
    | (Ok fontPath, s1, e1) =>
        match renderItems String_number W p fontPath 0 (items p) [] s1 with
        | (Ok parts, s2, e2) =>
            match finish W p parts s2 with
            | (o, s3, e3) => (o, s3, (e1 ++ e2 ++ e3)%list)
            end
        | (Throw, s2, e2) => (Throw, s2, (e1 ++ e2)%list)
        end
    | (Throw, s1, e1) => (Throw, s1, e1)
    end.
Proof.
  unfold pipeline, prelude, bind.
  destruct (ensureFFmpeg W s) as [[[[] |] s0] e0]; [| reflexivity].
  destruct (resetFS W s0) as [[[[] |] s1] e1]; [| reflexivity].
  destruct (writeFont W p s1) as [[[fontPath |] s2] e2]; [| reflexivity].
  destruct (renderItems String_number W p fontPath 0 (items p) [] s2)
    as [[[parts |] s3] e3].
  - destruct (finish W p parts s3) as [[o s4] e4].
    now rewrite !app_assoc.
  - now rewrite !app_assoc.
Qed.

Lemma createVideo_run (s : State Env) :
  let r := createVideo String_number W p s in
  let r0 := pipeline String_number W p (started s) in
  eventsOf r = eventsOf r0
  /\ outcomeOf r = Ok tt
  /\ isBusy (stateOf r) = false
  /\ progress (stateOf r) = 0
  /\ videoUrl (stateOf r) = videoUrl (stateOf r0)
  /\ message (stateOf r)
     = match outcomeOf r0 with
       | Ok _ => message (stateOf r0)
       | Throw => failureMessage
       end.
Proof.
  unfold createVideo. unfold_calls. cbn. fold (started s).
  destruct (pipeline String_number W p (started s)) as [[[[] |] s1] e1];
    unfold eventsOf, outcomeOf, stateOf; cbn; rewrite !app_nil_r; auto 10.
Qed.

Lemma message_distinct : successMessage <> failureMessage.
Proof. discriminate. Qed.

(** The anatomy of a run.  Its events are those of the beginning, of the
    loop and of the end, and it ends in one of three ways: the engine
    could not be loaded, a render failed, or the end of the [try] block
    was reached. *)
Lemma run_anatomy (s : State Env) :
  let r := createVideo String_number W p s in
  exists (fontPath : string) (e1 e2 e3 : list Event),
    eventsOf r = (e1 ++ e2 ++ e3)%list
    /\ execs e1 = [] /\ reads e1 = []
    /\ (forall u, In (u, false) (downloads e1) -> fontPath = EmptyString)
    /\ reads e2 = [] /\ downloads e2 = []
    /\ startOf (execs e2) (renderCommands String_number p fontPath 0 (items p))
    /\ downloads e3 = []
    /\ ((fatal e1 /\ downloads e1 = [] /\ e2 = [] /\ e3 = []
         /\ message (stateOf r) = failureMessage)
        \/ ((forall it rest, items p = it :: rest ->
               exists ok, hd_error e2 = Some (FetchFile (FromFile (file it)), ok))
            /\ ((fatal e2 /\ e3 = [] /\ message (stateOf r) = failureMessage)
                \/ (execs e2 = renderCommands String_number p fontPath 0 (items p)
                    /\ (forall c, ~ In (c, false) e2)
                    /\ exists parts s2 o s3,
                        finish W p parts s2 = (o, s3, e3)
                        /\ videoUrl (stateOf r) = videoUrl s3
                        /\ message (stateOf r)
                           = match o with
                             | Ok _ => message s3
                             | Throw => failureMessage
                             end)))).
Proof.
  intros r.
  destruct (createVideo_run s) as [Hev [_ [_ [_ [Hurl Hmsg]]]]].
  fold r in Hev, Hurl, Hmsg. rewrite Hev, Hurl, Hmsg. clear Hev Hurl Hmsg.
  rewrite pipeline_run.
  destruct (prelude W p (started s)) as [[o1 s1] e1] eqn:E1.
  apply prelude_spec in E1. destruct E1 as [Hx1 [Hr1 Ho1]].
  destruct o1 as [fontPath |].
  2:{ destruct Ho1 as [Hf Hd].
      exists EmptyString, e1, [], []. unfold eventsOf, outcomeOf, stateOf. cbn.
      rewrite app_nil_r.
      repeat (split; [first [reflexivity | assumption | apply startOf_nil
                            | intros; reflexivity] |]).
      left. auto. }
  destruct Ho1 as [_ Hd1].
  destruct (renderItems String_number W p fontPath 0 (items p) [] s1)
    as [[o2 s2] e2] eqn:E2.
  assert (Hfirst : forall it rest, items p = it :: rest ->
            exists ok, hd_error e2 = Some (FetchFile (FromFile (file it)), ok)).
  { intros it rest Hit. rewrite Hit in E2.
    destruct (renderItems_first fontPath it rest 0 [] s1) as [ok Hok].
    rewrite E2 in Hok. exists ok. exact Hok. }
  apply renderItems_spec in E2. destruct E2 as [Hr2 [Hd2 [Hs2 Ho2]]].
  destruct o2 as [parts |].
  - destruct Ho2 as [Hx2 Hok2].
    destruct (finish W p parts s2) as [[o3 s3] e3] eqn:E3.
    pose proof (finish_spec _ _ _ _ _ E3) as [Hd3 _].
    exists fontPath, e1, e2, e3. unfold eventsOf, outcomeOf, stateOf. cbn.
    repeat (split; [first [reflexivity | assumption] |]).
    right. split; [assumption |]. right.
    split; [assumption | split; [assumption |]].
    exists parts, s2, o3, s3. auto.
  - exists fontPath, e1, e2, []. unfold eventsOf, outcomeOf, stateOf. cbn.
    rewrite app_nil_r.
    repeat (split; [first [reflexivity | assumption] |]).
    right. split; [assumption |]. left. auto.
Qed.

(** ** The commands of the plan *)

Lemma renderCommands_flag (fontPath : string) (its : list MediaItem) :
  forall (i : nat) (cmd : list string),
  In cmd (renderCommands String_number p fontPath i its) ->
  nth 1 cmd EmptyString = "-loop".
Proof.
  induction its as [| it rest IH]; intros i cmd H; [contradiction |].
  destruct H as [H | H]; [subst cmd; reflexivity | eapply IH; eassumption].
Qed.

Lemma renderCommands_length (fontPath : string) (its : list MediaItem) :
  forall i : nat,
  List.length (renderCommands String_number p fontPath i its) = List.length its.
Proof.
  induction its as [| it rest IH]; intros i; [reflexivity |].
  cbn. now rewrite IH.
Qed.

Lemma renderCommands_nth (fontPath : string) (its : list MediaItem) :
  forall (i k : nat) (it : MediaItem),
  nth_error its k = Some it ->
  nth_error (renderCommands String_number p fontPath i its) k
  = Some (renderCommand String_number p fontPath (i + k) it).
Proof.
  induction its as [| x rest IH]; intros i k it H.
  - destruct k; discriminate.
  - destruct k as [| k].
    + cbn in H. inversion H; subst. cbn. now rewrite Nat.add_0_r.
    + cbn in H. cbn. rewrite (IH (S i) k it H).
      now rewrite Nat.add_succ_r.
Qed.






(** C4.  With an empty item list the button is disabled: a click runs
    nothing, so no call is made (no engine load, no write, no delete, no
    command) and the state is left as it was. *)
Theorem empty_sequence_rejected (s : State Env) :
  items p = [] ->
  canCreate p s = false
  /\ clickCreate String_number W p s = (Ok tt, s, [])
  /\ eventsOf (clickCreate String_number W p s) = [].
Proof.
  intros H.
  assert (Hc : canCreate p s = false) by (unfold canCreate; now rewrite H).
  unfold clickCreate. rewrite Hc. auto.
Qed.

(** The button is disabled during a run as well. *)
Lemma busy_rejected (s : State Env) :
  isBusy s = true -> clickCreate String_number W p s = (Ok tt, s, []).
Proof.
  intros H. unfold clickCreate, canCreate. rewrite H.
  now rewrite andb_false_r.
Qed.

(** With an item and no run in progress a click is a run. *)
Lemma click_runs (s : State Env) :
  items p <> [] -> isBusy s = false ->
  clickCreate String_number W p s = createVideo String_number W p s.
Proof.
  intros Hi Hb. unfold clickCreate, canCreate. rewrite Hb.
  destruct (items p); [congruence | reflexivity].
Qed.

Lemma Math_max_floor (d : number) :
  d <> NaN ->
  le lit_0_2 (Math_max lit_0_2 d)
  /\ (le lit_0_2 d -> Math_max lit_0_2 d = d)
  /\ (le d lit_0_2 -> le (Math_max lit_0_2 d) lit_0_2).
Proof.
  intros Hd. unfold le, lit_0_2.
  destruct d as [| | q |]; try congruence; cbn.
  - repeat split; auto; discriminate.
  - destruct (Qle_bool (1 # 5) q) eqn:E; cbn.
    + repeat split; auto.
    + repeat split; auto; discriminate.
  - repeat split; auto.
Qed.

(** A run that ends with the success message ran the whole plan. *)
Lemma success_runs_plan (s : State Env) :
  let r := createVideo String_number W p s in
  message (stateOf r) = successMessage ->
  exists fontPath,
    (forall u, In (FetchFile (FromUrl u), false) (eventsOf r) -> fontPath = EmptyString)
    /\ execs (eventsOf r) = plan String_number p fontPath
    /\ exists n, reads (eventsOf r) = [n].
Proof.
  intros r Hmsg.
  destruct (run_anatomy s)
    as [fontPath [e1 [e2 [e3 [Hev [Hx1 [Hr1 [Hd1 [Hr2 [Hd2 [Hs2 [Hd3 Hend]]]]]]]]]]]].
  fold r in Hev, Hend. rewrite Hev.
  destruct Hend as [[_ [_ [_ [_ Hm]]]] | [_ [[_ [_ Hm]] | [Hx2 [_ Hfin]]]]];
    try (rewrite Hm in Hmsg; symmetry in Hmsg; now apply message_distinct in Hmsg).
  destruct Hfin as [parts [s2 [o [s3 [E3 [_ Hm]]]]]].
  destruct o as [[] |];
    [| rewrite Hm in Hmsg; symmetry in Hmsg; now apply message_distinct in Hmsg].
  destruct (finish_spec _ _ _ _ _ E3) as [_ [_ [Hx3 _]]].
  exists fontPath. split; [| split].
  - intros u Hu. apply In_downloads in Hu.
    rewrite !downloads_app, Hd2, Hd3, !app_nil_r in Hu. now apply Hd1 in Hu.
  - rewrite !execs_app, Hx1, Hx2, Hx3. reflexivity.
  - rewrite !reads_app, Hr1, Hr2. cbn [app].
    destruct (finish_reads _ _ _ _ _ E3) as [[_ Ho] | [[Hn _] | [Hn _]]];
      [discriminate | eauto | eauto].
Qed.

(** C5.  The render command of an item loops the still image
    ([-loop 1]) for [String(Math.max(0.2, durationSec))] seconds, at the
    configured frame rate, without audio ([-an]); the loop body hands it to
    the engine once, unless staging the image threw; in a run that ends
    with the success message the commands are those of the plan, the one
    at position [k] being the render of item [k]. *)
Theorem render_once_per_item :
  (forall fontPath i it, exists rest,
      renderCommand String_number p fontPath i it
      = ([ "-y"; "-loop"; "1";
           "-t"; String_number (Math_max lit_0_2 (durationSec it));
           "-i"; inputName i it;
           "-r"; String_int (fps p);
           "-vf"; vf (resolution_w p) (resolution_h p) (caption it) fontPath;
           "-an" ] ++ rest)%list)
  /\ (forall d, d <> NaN ->
        le lit_0_2 (Math_max lit_0_2 d)
        /\ (le lit_0_2 d -> Math_max lit_0_2 d = d))
  /\ (forall fontPath i it (s : State Env),
        let r := renderItem String_number W p fontPath i it s in
        (outcomeOf r = Ok (partName i)
         /\ execs (eventsOf r) = [renderCommand String_number p fontPath i it])
        \/ (outcomeOf r = Throw
            /\ (execs (eventsOf r) = []
                \/ execs (eventsOf r)
                   = [renderCommand String_number p fontPath i it])))
  /\ (forall s : State Env,
        let r := createVideo String_number W p s in
        message (stateOf r) = successMessage ->
        exists fontPath,
          execs (eventsOf r) = plan String_number p fontPath
          /\ List.length (execs (eventsOf r))
             = (List.length (items p) + 1 + List.length (muxPlan p))%nat
          /\ forall k it, nth_error (items p) k = Some it ->
               nth_error (execs (eventsOf r)) k
               = Some (renderCommand String_number p fontPath k it)).
Proof.
  split; [| split; [| split]].
  - intros fontPath i it. eexists. reflexivity.
  - intros d Hd. destruct (Math_max_floor d Hd) as [H1 [H2 _]]. auto.
  - intros fontPath i it s r.
    destruct r as [[o s1] e1] eqn:Er. unfold r in Er.
    apply renderItem_spec in Er. destruct Er as [_ [_ [_ Ho]]].
    unfold outcomeOf, eventsOf. cbn [fst snd].
    destruct o as [part |].
    + destruct Ho as [Hp [Hx _]]. subst part. left. auto.
    + destruct Ho as [_ Hx]. right. auto.
  - intros s r Hmsg.
    destruct (success_runs_plan s Hmsg) as [fontPath [_ [Hx _]]].
    fold r in Hx. exists fontPath. rewrite Hx. unfold plan.
    split; [reflexivity | split].
    + rewrite length_app, renderCommands_length. cbn [List.length]. lia.
    + intros k it Hk. rewrite nth_error_app1.
      * now apply renderCommands_nth.
      * rewrite renderCommands_length. apply nth_error_Some. congruence.
Qed.



(** ** Further properties of the run *)

Lemma setups_app (a b : list Event) : setups (a ++ b) = (setups a ++ setups b)%list.
Proof. unfold setups. apply filter_app. Qed.

Lemma deletions_app (a b : list Event) :
  deletions (a ++ b) = (deletions a ++ deletions b)%list.
Proof. unfold deletions. apply flat_map_app. Qed.

Lemma writes_app (a b : list Event) : writes (a ++ b) = (writes a ++ writes b)%list.
Proof. unfold writes. apply flat_map_app. Qed.

Lemma In_writes (f : string) (d : bytes) (ok : bool) (evs : list Event) :
  In (WriteFile f d, ok) evs -> In (f, d) (writes evs).
Proof.
  intros H. unfold writes. apply in_flat_map.
  exists (WriteFile f d, ok). split; [assumption | left; reflexivity].
Qed.

Lemma In_setups (e : Event) (evs : list Event) :
  In e evs -> isSetupCall (fst e) = true -> In e (setups evs).
Proof. intros H1 H2. unfold setups. apply filter_In. auto. Qed.

Lemma sameUI_refl (s : State Env) : sameUI s s.
Proof. unfold sameUI. auto. Qed.

Lemma sameUI_trans (a b c : State Env) : sameUI a b -> sameUI b c -> sameUI a c.
Proof. unfold sameUI. intuition congruence. Qed.

Lemma sameUI_withEnv (s : State Env) (e : Env) : sameUI s (withEnv s e).
Proof. unfold sameUI, withEnv. cbn. auto. Qed.

Lemma sameUI_progress (fractions : list Q) (s : State Env) :
  sameUI s (fold_left onProgress fractions s)
  /\ env (fold_left onProgress fractions s) = env s.
Proof.
  revert s. induction fractions as [| f fr IH]; intros s; cbn [fold_left].
  - split; [apply sameUI_refl | reflexivity].
  - destruct (IH (onProgress s f)) as [H1 H2]. split.
    + eapply sameUI_trans; [| exact H1]. unfold sameUI, onProgress. cbn. auto.
    + rewrite H2. reflexivity.
Qed.

Lemma fold_isBusy (fr : list Q) (s : State Env) :
  isBusy (fold_left onProgress fr s) = isBusy s.
Proof. now destruct (sameUI_progress fr s) as [[H1 [H2 [H3 H4]]] H5]. Qed.

Lemma fold_message (fr : list Q) (s : State Env) :
  message (fold_left onProgress fr s) = message s.
Proof. now destruct (sameUI_progress fr s) as [[H1 [H2 [H3 H4]]] H5]. Qed.

Lemma fold_videoUrl (fr : list Q) (s : State Env) :
  videoUrl (fold_left onProgress fr s) = videoUrl s.
Proof. now destruct (sameUI_progress fr s) as [[H1 [H2 [H3 H4]]] H5]. Qed.

Lemma fold_ffmpegRef (fr : list Q) (s : State Env) :
  ffmpegRef (fold_left onProgress fr s) = ffmpegRef s.
Proof. now destruct (sameUI_progress fr s) as [[H1 [H2 [H3 H4]]] H5]. Qed.

Ltac frame :=
  unfold sameUI, withEnv;
  repeat (progress
            (cbn;
             rewrite ?fold_isBusy, ?fold_message, ?fold_videoUrl,
               ?fold_ffmpegRef));
  auto.

(** [ensureFFmpeg], further: it makes setup calls only; when it returns
    the handle is set and no call threw; when the handle was set it makes
    no call; when it throws the handle stays unset. *)
Lemma ensureFFmpeg_more (s s1 : State Env) (o : Outcome unit) (e1 : list Event) :
  ensureFFmpeg W s = (o, s1, e1) ->
  setups e1 = e1 /\ writes e1 = [] /\ deletions e1 = []
  /\ isBusy s1 = isBusy s /\ message s1 = message s /\ videoUrl s1 = videoUrl s
  /\ (ffmpegRef s = true -> e1 = [] /\ o = Ok tt)
  /\ match o with
     | Ok _ =>
         ffmpegRef s1 = true /\ (forall c, ~ In (c, false) e1)
         /\ (ffmpegRef s = false -> exists a b c, In (Load a b c, true) e1)
     | Throw =>
         ffmpegRef s1 = false /\ (exists c, In (c, false) e1)
         /\ (forall a b c, ~ In (Load a b c, true) e1)
     end.
Proof.
  unfold ensureFFmpeg. unfold_calls.
  destruct (ffmpegRef s) eqn:Eref; cbn.
  { intros E; inversion E; subst. rewrite Eref.
    repeat split; auto. discriminate. }
  repeat world_step; intros E; inversion E; subst; cbn.
  all: repeat match goal with |- _ /\ _ => split end.
  all: try reflexivity; try exact Eref; try discriminate.
  all: try match goal with
           | |- forall _ : Call, ~ _ =>
               intros c Hc; cbn in Hc;
               repeat (destruct Hc as [Hc | Hc]; [discriminate |]);
               contradiction
           | |- forall _ _ _ : string, ~ _ =>
               intros a b c Hc; cbn in Hc;
               repeat (destruct Hc as [Hc | Hc]; [discriminate |]);
               contradiction
           end.
  - intros _. do 3 eexists. do 3 right. left. reflexivity.
  - eexists. do 3 right. left. reflexivity.
  - eexists. do 2 right. left. reflexivity.
  - eexists. right. left. reflexivity.
  - eexists. left. reflexivity.
Qed.

Lemma deleteStale_more (f : FSNode) (s s1 : State Env) (o : Outcome unit)
    (e1 : list Event) :
  deleteStale W f s = (o, s1, e1) ->
  sameUI s s1 /\ setups e1 = [] /\ writes e1 = []
  /\ deletions e1 = (if stale f then ["/" ++ node_name f] else []).
Proof.
  unfold deleteStale, stale.
  destruct (truthy (node_name f) && negb (node_name f =? ".")%string
            && negb (node_name f =? "..")%string).
  - unfold_calls. world_step; intros E; inversion E; subst; cbn;
      repeat split; frame.
  - unfold ret. intros E; inversion E; subst. cbn. repeat split; frame.
Qed.

Lemma deleteLoop_more (files : list FSNode) (s s1 : State Env)
    (o : Outcome unit) (e1 : list Event) :
  forEach files (deleteStale W) s = (o, s1, e1) ->
  sameUI s s1 /\ setups e1 = [] /\ writes e1 = []
  /\ deletions e1 = map (fun f => "/" ++ node_name f) (filter stale files).
Proof.
  revert s s1 o e1. induction files as [| f files IH]; intros s s1 o e1.
  - cbn. intros E; inversion E; subst. cbn. repeat split; frame.
  - cbn [forEach]. unfold bind.
    destruct (deleteStale W f s) as [[o' s'] e'] eqn:Ef.
    pose proof Ef as Ef'. apply deleteStale_spec in Ef'.
    destruct Ef' as [Ho _]. subst o'.
    apply deleteStale_more in Ef. destruct Ef as [Hu [Hs [Hw Hd]]].
    destruct (forEach files (deleteStale W) s') as [[o2 s2] e2] eqn:El.
    apply IH in El. destruct El as [Hu2 [Hs2 [Hw2 Hd2]]].
    intros E; inversion E; subst.
    rewrite setups_app, writes_app, deletions_app, Hs, Hs2, Hw, Hw2, Hd, Hd2.
    split; [eapply sameUI_trans; eassumption |].
    repeat split. cbn [filter]. destruct (stale f); reflexivity.
Qed.

Lemma resetFS_more (s s1 : State Env) (o : Outcome unit) (e1 : list Event) :
  resetFS W s = (o, s1, e1) ->
  sameUI s s1 /\ setups e1 = [] /\ writes e1 = []
  /\ match fst (w_listDir W (env s) "/") with
     | Some files =>
         deletions e1 = map (fun f => "/" ++ node_name f) (filter stale files)
         /\ hd_error e1 = Some (ListDir "/", true)
     | None => e1 = [(ListDir "/", false)]
     end.
Proof.
  unfold resetFS. unfold try_catch, bind at 1, listDir, call_option.
  world_step.
  - destruct (forEach files (deleteStale W) (withEnv s e')) as [[o2 s2] e2] eqn:El.
    pose proof El as El'. apply deleteLoop_spec in El'.
    destruct El' as [Ho2 _]. subst o2.
    apply deleteLoop_more in El. destruct El as [Hu [Hs [Hw Hd]]].
    intros E; inversion E; subst. cbn.
    split; [eapply sameUI_trans; [apply sameUI_withEnv | eassumption] |].
    repeat split; auto.
  - unfold ret. intros E; inversion E; subst. cbn. repeat split; frame.
Qed.

Lemma writeFont_more (s s1 : State Env) (o : Outcome string) (e1 : list Event) :
  writeFont W p s = (o, s1, e1) ->
  sameUI s s1 /\ setups e1 = [] /\ deletions e1 = []
  /\ (forall f d, In (f, d) (writes e1) -> f = "font.ttf").
Proof.
  unfold writeFont. unfold_calls.
  repeat world_step; intros E; inversion E; subst; cbn;
    (split; [frame | split; [reflexivity | split; [reflexivity |]]]);
    intros f d Hf; cbn in Hf;
    repeat (destruct Hf as [Hf | Hf]; [inversion Hf; reflexivity |]);
    contradiction.
Qed.

Lemma renderItem_more (fontPath : string) (i : nat) (it : MediaItem)
    (s s1 : State Env) (o : Outcome string) (e1 : list Event) :
  renderItem String_number W p fontPath i it s = (o, s1, e1) ->
  sameUI s s1 /\ setups e1 = [] /\ deletions e1 = []
  /\ (forall f d, In (f, d) (writes e1) -> f = inputName i it).
Proof.
  unfold renderItem. unfold_calls.
  repeat world_step; intros E; inversion E; subst; cbn;
    (split; [frame | split; [reflexivity | split; [reflexivity |]]]);
    intros f d Hf; cbn in Hf;
    repeat (destruct Hf as [Hf | Hf]; [inversion Hf; reflexivity |]);
    contradiction.
Qed.

Lemma renderItems_more (fontPath : string) (its : list MediaItem) :
  forall (i : nat) (acc : list string) (s s1 : State Env)
         (o : Outcome (list string)) (e1 : list Event),
  renderItems String_number W p fontPath i its acc s = (o, s1, e1) ->
  sameUI s s1 /\ setups e1 = [] /\ deletions e1 = []
  /\ (forall f d, In (f, d) (writes e1) ->
        exists k it, nth_error its k = Some it /\ f = inputName (i + k) it)
  /\ (forall parts, o = Ok parts ->
        parts = (acc ++ map partName (seq i (List.length its)))%list).
Proof.
  induction its as [| it rest IH]; intros i acc s s1 o e1.
  - cbn. intros E; inversion E; subst. cbn.
    split; [apply sameUI_refl |]. repeat split; try contradiction.
    intros parts Hp. inversion Hp. now rewrite app_nil_r.
  - cbn [renderItems]. unfold bind.
    destruct (renderItem String_number W p fontPath i it s)
      as [[o' s'] e'] eqn:Eb.
    pose proof Eb as Eb'. apply renderItem_spec in Eb'.
    destruct Eb' as [_ [_ [_ Hb]]].
    apply renderItem_more in Eb. destruct Eb as [Hu [Hs [Hd Hw]]].
    destruct o' as [part |].
    + destruct Hb as [Hp _]. subst part.
      destruct (renderItems String_number W p fontPath (S i) rest
                  (acc ++ [partName i]) s') as [[o2 s2] e2] eqn:El.
      apply IH in El. destruct El as [Hu2 [Hs2 [Hd2 [Hw2 Hp2]]]].
      intros E; inversion E; subst.
      rewrite setups_app, deletions_app, Hs, Hs2, Hd, Hd2.
      split; [eapply sameUI_trans; eassumption |].
      split; [reflexivity | split; [reflexivity | split]].
      * intros f d Hf. rewrite writes_app in Hf. apply in_app_or in Hf.
        destruct Hf as [Hf | Hf].
        -- exists O, it. split; [reflexivity |].
           rewrite Nat.add_0_r. eapply Hw. eassumption.
        -- destruct (Hw2 f d Hf) as [k [x [Hk Hx]]].
           exists (S k), x. split; [exact Hk |].
           now rewrite Nat.add_succ_r.
      * intros parts Hp. rewrite (Hp2 parts Hp).
        cbn [List.length seq map]. now rewrite <- app_assoc.
    + intros E; inversion E; subst.
      split; [assumption | split; [assumption | split; [assumption | split]]].
      * intros f d Hf. exists O, it. split; [reflexivity |].
        rewrite Nat.add_0_r. eapply Hw. eassumption.
      * discriminate.
Qed.

Lemma finish_more (parts : list string) (s s1 : State Env) (o : Outcome unit)
    (e1 : list Event) :
  finish W p parts s = (o, s1, e1) ->
  setups e1 = [] /\ deletions e1 = []
  /\ isBusy s1 = isBusy s /\ ffmpegRef s1 = ffmpegRef s
  /\ (forall name d, In (name, d) (writes e1) ->
        (name = "concat_list.txt" /\ d = TextEncoder_encode (listTxt parts))
        \/ name = "audio_in")
  /\ (exists ok,
        hd_error e1
        = Some (WriteFile "concat_list.txt" (TextEncoder_encode (listTxt parts)), ok))
  /\ match o with
     | Ok _ => True
     | Throw => message s1 = message s /\ videoUrl s1 = videoUrl s
     end.
Proof.
  run_finish.
  all: split; [reflexivity |].
  all: split; [reflexivity |].
  all: split; [solve [frame] |].
  all: split; [solve [frame] |].
  all: split;
    [ intros name d Hf; cbn in Hf;
      repeat (destruct Hf as [Hf | Hf];
              [inversion Hf; subst;
               first [left; split; reflexivity | right; reflexivity] |]);
      contradiction |].
  all: split; [eexists; reflexivity |].
  all: first [exact I | split; solve [frame]].
Qed.

(** A loop that throws stops at the call that threw. *)
Lemma renderItem_throw_last (fontPath : string) (i : nat) (it : MediaItem)
    (s s1 : State Env) (e1 : list Event) :
  renderItem String_number W p fontPath i it s = (Throw, s1, e1) ->
  exists pre c, e1 = (pre ++ [(c, false)])%list /\ forall c', ~ In (c', false) pre.
Proof.
  unfold renderItem. unfold_calls.
  repeat world_step; intros E; inversion E; subst.
  - exists [(FetchFile (FromFile (file it)), true);
            (WriteFile (inputName i it) data, true)], 
           (Exec (renderCommand String_number p fontPath i it)).
    split; [reflexivity |].
    intros c' [H | [H | []]]; discriminate.
  - exists [(FetchFile (FromFile (file it)), true)],
           (WriteFile (inputName i it) data).
    split; [reflexivity |]. intros c' [H | []]; discriminate.
  - exists [], (FetchFile (FromFile (file it))).
    split; [reflexivity |]. intros c' [].
Qed.

Lemma renderItems_throw_last (fontPath : string) (its : list MediaItem) :
  forall (i : nat) (acc : list string) (s s1 : State Env) (e1 : list Event),
  renderItems String_number W p fontPath i its acc s = (Throw, s1, e1) ->
  exists pre c, e1 = (pre ++ [(c, false)])%list /\ forall c', ~ In (c', false) pre.
Proof.
  induction its as [| it rest IH]; intros i acc s s1 e1.
  - cbn. discriminate.
  - cbn [renderItems]. unfold bind.
    destruct (renderItem String_number W p fontPath i it s)
      as [[o' s'] e'] eqn:Eb.
    destruct o' as [part |].
    + apply renderItem_spec in Eb. destruct Eb as [_ [_ [_ [_ [_ Hok]]]]].
      destruct (renderItems String_number W p fontPath (S i) rest
                  (acc ++ [part]) s') as [[o2 s2] e2] eqn:El.
      intros E; inversion E; subst.
      apply IH in El. destruct El as [pre [c [E2 Hpre]]].
      exists (e' ++ pre)%list, c. split; [rewrite E2; now rewrite app_assoc |].
      intros c' Hc. apply in_app_or in Hc. destruct Hc as [Hc | Hc].
      * now apply Hok in Hc.
      * now apply Hpre in Hc.
    + intros E; inversion E; subst. now apply renderItem_throw_last in Eb.
Qed.

(** The run, phase by phase. *)
Lemma run_trace (s : State Env) :
  let r := createVideo String_number W p s in
  outcomeOf r = Ok tt
  /\ exists o0 s1 e0,
       ensureFFmpeg W (started s) = (o0, s1, e0)
       /\ match o0 with
          | Throw =>
              eventsOf r = e0 /\ settled (stateOf r) s1 failureMessage
          | Ok _ =>
              exists s2 er fontPath s3 ef o4 s4 el,
                resetFS W s1 = (Ok tt, s2, er)
                /\ writeFont W p s2 = (Ok fontPath, s3, ef)
                /\ renderItems String_number W p fontPath 0 (items p) [] s3
                   = (o4, s4, el)
                /\ match o4 with
                   | Throw =>
                       eventsOf r = (e0 ++ er ++ ef ++ el)%list
                       /\ settled (stateOf r) s4 failureMessage
                   | Ok parts =>
                       exists o5 s5 e5,
                         finish W p parts s4 = (o5, s5, e5)
                         /\ eventsOf r = (e0 ++ er ++ ef ++ el ++ e5)%list
                         /\ settled (stateOf r) s5
                              match o5 with
                              | Ok _ => message s5
                              | Throw => failureMessage
                              end
                   end
          end.
Proof.
  unfold createVideo.
  unfold bind at 1 2 3 4, try_finally, try_catch, setIsBusy, setMessage,
    setProgress, setVideoUrl, pipeline.
  cbn. fold (started s). unfold bind.
  destruct (ensureFFmpeg W (started s)) as [[o0 s1] e0] eqn:E0.
  destruct o0 as [[] |].
  2:{ unfold outcomeOf, eventsOf, stateOf, settled. cbn.
      split; [reflexivity |]. exists Throw, s1, e0.
      rewrite !app_nil_r. split; [exact E0 |]. auto 10. }
  destruct (resetFS W s1) as [[o2 s2] er] eqn:E2.
  pose proof E2 as E2'. apply resetFS_spec in E2'.
  destruct E2' as [Ho2 _]. subst o2.
  destruct (writeFont W p s2) as [[o3 s3] ef] eqn:E3.
  assert (Hfp : exists fontPath, o3 = Ok fontPath).
  { pose proof E3 as E3'. apply writeFont_spec in E3'.
    destruct E3' as [_ [_ [[[H _] | H] _]]]; eauto. }
  destruct Hfp as [fontPath Hfp]. subst o3.
  destruct (renderItems String_number W p fontPath 0 (items p) [] s3)
    as [[o4 s4] el] eqn:E4.
  destruct o4 as [parts |].
  - destruct (finish W p parts s4) as [[o5 s5] e5] eqn:E5.
    unfold outcomeOf, eventsOf, stateOf, settled.
    destruct o5 as [[] |]; cbn; (split; [reflexivity |]).
    + exists (Ok tt), s1, e0. split; [exact E0 |].
      exists s2, er, fontPath, s3, ef, (Ok parts), s4, el.
      repeat (split; [eassumption |]).
      exists (Ok tt), s5, e5. rewrite ?app_nil_r, <- ?app_assoc. auto 10.
    + exists (Ok tt), s1, e0. split; [exact E0 |].
      exists s2, er, fontPath, s3, ef, (Ok parts), s4, el.
      repeat (split; [eassumption |]).
      exists Throw, s5, e5. rewrite ?app_nil_r, <- ?app_assoc. auto 10.
  - unfold outcomeOf, eventsOf, stateOf, settled. cbn.
    split; [reflexivity |].
    exists (Ok tt), s1, e0. split; [exact E0 |].
    exists s2, er, fontPath, s3, ef, Throw, s4, el.
    repeat (split; [eassumption |]).
    rewrite ?app_nil_r, <- ?app_assoc. auto 10.
Qed.

(** What the failures at the end of the run do. *)
Lemma finish_failures (parts : list string) (s s1 : State Env)
    (o : Outcome unit) (e1 : list Event) :
  finish W p parts s = (o, s1, e1) ->
  (In (Exec concatCommand, false) e1 ->
     o = Throw /\ execs e1 = [concatCommand] /\ reads e1 = []
     /\ forall d, ~ In ("audio_in", d) (writes e1))
  /\ (forall d, In (WriteFile "audio_in" d, false) e1 ->
        o = Throw /\ execs e1 = [concatCommand] /\ reads e1 = []
        /\ In (Exec concatCommand, true) e1)
  /\ (forall f, In (FetchFile (FromFile f), false) e1 ->
        o = Throw /\ execs e1 = [concatCommand] /\ reads e1 = []
        /\ writes e1
           = [("concat_list.txt", TextEncoder_encode (listTxt parts))])
  /\ (forall n, In (ReadFile n, false) e1 -> o = Throw)
  /\ (In (Exec (muxCommand "final.mp4"), true) e1 ->
        reads e1 = ["final.mp4"]
        /\ (exists d, In (WriteFile "audio_in" d, true) e1)
        /\ (In (ReadFile "final.mp4", true) e1 -> o = Ok tt)).
Proof.
  run_finish.
  all: repeat match goal with
         | |- _ /\ _ => split
         | |- ~ _ => intro
         | |- forall _, _ => intro
         end.
  all: cbn in *;
    repeat match goal with
      | H : _ \/ _ |- _ => destruct H as [H | H]
      | H : (_, _) = (_, _) |- _ => inversion H; clear H
      | H : False |- _ => contradiction
      end;
    try discriminate; try reflexivity.
  all: try solve [eexists; cbn; eauto 10].
  all: auto 10.
Qed.

Lemma setups_nil_not_In (e : Event) (evs : list Event) :
  setups evs = [] -> In e evs -> isSetupCall (fst e) = true -> False.
Proof.
  intros H Hin Hk. pose proof (In_setups e evs Hin Hk) as C.
  rewrite H in C. contradiction.
Qed.

Lemma In_app4 {A : Type} (x : A) (a b c d : list A) :
  In x (a ++ b ++ c ++ d) -> In x a \/ In x b \/ In x c \/ In x d.
Proof.
  intros H. repeat (apply in_app_or in H; destruct H as [H | H]; auto).
Qed.

Lemma In_app5 {A : Type} (x : A) (a b c d e : list A) :
  In x (a ++ b ++ c ++ d ++ e) -> In x a \/ In x b \/ In x c \/ In x d \/ In x e.
Proof.
  intros H. repeat (apply in_app_or in H; destruct H as [H | H]; auto).
Qed.

(** The phases of a run with what is known of each. *)
Ltac unpack_trace s :=
  let r := fresh "r" in
  destruct (run_trace s) as [Hout [o0 [s1 [e0 [E0 Hrest]]]]];
  let X := fresh in
  pose proof E0 as X; apply ensureFFmpeg_spec in X;
  destruct X as [Hx0 [Hr0 [Hd0 _]]];
  pose proof E0 as X; apply ensureFFmpeg_more in X;
  destruct X as [Hs0 [Hw0 [Hdel0 [Hb0 [Hm0 [Hv0 [Hc0 Ho0]]]]]]];
  destruct o0 as [[] |];
  [ destruct Hrest
      as [s2 [er [fontPath [s3 [ef [o4 [s4 [el [E2 [E3 [E4 Hrest]]]]]]]]]]];
    pose proof E2 as X; apply resetFS_spec in X;
    destruct X as [_ [Hx2 [Hr2 Hd2]]];
    pose proof E2 as X; apply resetFS_more in X;
    destruct X as [Hu2 [Hs2 [Hw2 Hdel2]]];
    pose proof E3 as X; apply writeFont_spec in X;
    destruct X as [Hx3 [Hr3 [Hfp3 Hd3]]];
    pose proof E3 as X; apply writeFont_more in X;
    destruct X as [Hu3 [Hs3 [Hdel3 Hw3]]];
    pose proof E4 as X; apply renderItems_spec in X;
    destruct X as [Hr4 [Hd4 [Hst4 Ho4]]];
    pose proof E4 as X; apply renderItems_more in X;
    destruct X as [Hu4 [Hs4 [Hdel4 [Hw4 Hp4]]]];
    destruct o4 as [parts |];
    [ destruct Hrest as [o5 [s5 [e5 [E5 [Hev Hset]]]]];
      pose proof E5 as X; apply finish_spec in X;
      destruct X as [Hd5 [Hst5 Ho5]];
      pose proof E5 as X; apply finish_more in X;
      destruct X as [Hs5 [Hdel5 [Hb5 [Hf5 [Hw5 [Hhd5 Hfr5]]]]]];
      unfold settled in Hset;
      destruct Hset as [Hbusy [Hprog [Hmsg [Hurl [Href Henv]]]]]
    | destruct Hrest as [Hev Hset];
      unfold settled in Hset;
      destruct Hset as [Hbusy [Hprog [Hmsg [Hurl [Href Henv]]]]] ]
  | destruct Hrest as [Hev Hset];
    unfold settled in Hset;
    destruct Hset as [Hbusy [Hprog [Hmsg [Hurl [Href Henv]]]]] ].

Lemma started_videoUrl (s : State Env) : videoUrl (started s) = None.
Proof. reflexivity. Qed.

(** X11.  In every world [createVideo] returns without throwing, with
    [isBusy] off and [progress] at 0, and in one of two states: the success
    message with a video URL, or the failure message with no video URL (the
    URL of an earlier run is cleared). *)
Theorem run_always_settles (s : State Env) :
  let r := createVideo String_number W p s in
  outcomeOf r = Ok tt
  /\ isBusy (stateOf r) = false
  /\ progress (stateOf r) = 0
  /\ ((message (stateOf r) = successMessage
       /\ exists url, videoUrl (stateOf r) = Some url)
      \/ (message (stateOf r) = failureMessage
          /\ videoUrl (stateOf r) = None)).
Proof.
  intros r. unpack_trace s; fold r in Hev, Hbusy, Hprog, Hmsg, Hurl, Href, Henv.
  - (* the end of the try block was reached *)
    split; [exact Hout | split; [exact Hbusy | split; [exact Hprog |]]].
    destruct o5 as [[] |].
    + left. destruct Ho5 as [_ [Hm [Hu _]]]. rewrite Hmsg, Hurl. auto.
    + right. split; [exact Hmsg |]. destruct Hfr5 as [_ Hv5].
      destruct Hu2 as [_ [_ [Hv2 _]]], Hu3 as [_ [_ [Hv3 _]]],
        Hu4 as [_ [_ [Hv4 _]]].
      rewrite Hurl, Hv5, Hv4, Hv3, Hv2, Hv0. reflexivity.
  - split; [exact Hout | split; [exact Hbusy | split; [exact Hprog |]]].
    right. split; [exact Hmsg |].
    destruct Hu2 as [_ [_ [Hv2 _]]], Hu3 as [_ [_ [Hv3 _]]],
      Hu4 as [_ [_ [Hv4 _]]].
    rewrite Hurl, Hv4, Hv3, Hv2, Hv0. reflexivity.
  - split; [exact Hout | split; [exact Hbusy | split; [exact Hprog |]]].
    right. split; [exact Hmsg |]. rewrite Hurl, Hv0. reflexivity.
Qed.

Lemma started_ffmpegRef (s : State Env) : ffmpegRef (started s) = ffmpegRef s.
Proof. reflexivity. Qed.

(** The engine handle through a run. *)
Lemma run_handle (s : State Env) :
  let r := createVideo String_number W p s in
  (ffmpegRef s = true ->
     setups (eventsOf r) = [] /\ ffmpegRef (stateOf r) = true)
  /\ (ffmpegRef (stateOf r) = true
      <-> ffmpegRef s = true
          \/ exists a b c, In (Load a b c, true) (eventsOf r))
  /\ (message (stateOf r) = successMessage -> ffmpegRef (stateOf r) = true).
Proof.
  intros r. unpack_trace s; fold r in Hev, Hbusy, Hprog, Hmsg, Hurl, Href, Henv;
    rewrite started_ffmpegRef in Hc0.
  - destruct Ho0 as [Ht [_ Hload]].
    change (ffmpegRef (started s)) with (ffmpegRef s) in Hload.
    destruct Hu2 as [_ [_ [_ Hf2]]], Hu3 as [_ [_ [_ Hf3]]],
      Hu4 as [_ [_ [_ Hf4]]].
    assert (Hfin : ffmpegRef (stateOf r) = true)
      by (rewrite Href, Hf5, Hf4, Hf3, Hf2; exact Ht).
    split; [| split; [| auto]].
    + intros Hs. destruct (Hc0 Hs) as [He _]. subst e0.
      rewrite Hev, !setups_app, Hs2, Hs3, Hs4, Hs5. auto.
    + split; [| auto]. intros _.
      destruct (ffmpegRef s) eqn:Es; [now left | right].
      destruct (Hload eq_refl) as [a [b [c Hin]]].
      exists a, b, c. rewrite Hev. apply in_or_app. now left.
  - destruct Ho0 as [Ht [_ Hload]].
    change (ffmpegRef (started s)) with (ffmpegRef s) in Hload.
    destruct Hu2 as [_ [_ [_ Hf2]]], Hu3 as [_ [_ [_ Hf3]]],
      Hu4 as [_ [_ [_ Hf4]]].
    assert (Hfin : ffmpegRef (stateOf r) = true)
      by (rewrite Href, Hf4, Hf3, Hf2; exact Ht).
    split; [| split; [| auto]].
    + intros Hs. destruct (Hc0 Hs) as [He _]. subst e0.
      rewrite Hev, !setups_app, Hs2, Hs3, Hs4. auto.
    + split; [| auto]. intros _.
      destruct (ffmpegRef s) eqn:Es; [now left | right].
      destruct (Hload eq_refl) as [a [b [c Hin]]].
      exists a, b, c. rewrite Hev. apply in_or_app. now left.
  - destruct Ho0 as [Hf [_ Hnoload]].
    split; [| split].
    + intros Hs. destruct (Hc0 Hs) as [_ C]. discriminate.
    + rewrite Href, Hf. split; [discriminate |].
      intros [Hs | [a [b [c Hin]]]].
      * destruct (Hc0 Hs) as [_ C]. discriminate.
      * rewrite Hev in Hin. now apply Hnoload in Hin.
    + intros Hm. rewrite Hmsg in Hm. symmetry in Hm.
      now apply message_distinct in Hm.
Qed.

(** X13.  When a setup call throws (a download of the engine code or the
    load), the run makes no other call: nothing is listed, deleted,
    downloaded, written, executed or read; it ends with the failure
    message, without a video URL, and the handle stays unset. *)
Theorem engine_failure_stops_everything (s : State Env) (c : Call) :
  let r := createVideo String_number W p s in
  In (c, false) (eventsOf r) -> isSetupCall c = true ->
  setups (eventsOf r) = eventsOf r
  /\ execs (eventsOf r) = [] /\ reads (eventsOf r) = []
  /\ writes (eventsOf r) = [] /\ deletions (eventsOf r) = []
  /\ downloads (eventsOf r) = []
  /\ message (stateOf r) = failureMessage
  /\ videoUrl (stateOf r) = None
  /\ ffmpegRef (stateOf r) = false.
Proof.
  intros r Hin Hk.
  unpack_trace s; fold r in Hin, Hev, Hbusy, Hprog, Hmsg, Hurl, Href, Henv.
  - exfalso. destruct Ho0 as [_ [Hok _]]. rewrite Hev in Hin.
    apply In_app5 in Hin. destruct Hin as [H | [H | [H | [H | H]]]].
    + now apply Hok in H.
    + exact (setups_nil_not_In _ _ Hs2 H Hk).
    + exact (setups_nil_not_In _ _ Hs3 H Hk).
    + exact (setups_nil_not_In _ _ Hs4 H Hk).
    + exact (setups_nil_not_In _ _ Hs5 H Hk).
  - exfalso. destruct Ho0 as [_ [Hok _]]. rewrite Hev in Hin.
    apply In_app4 in Hin. destruct Hin as [H | [H | [H | H]]].
    + now apply Hok in H.
    + exact (setups_nil_not_In _ _ Hs2 H Hk).
    + exact (setups_nil_not_In _ _ Hs3 H Hk).
    + exact (setups_nil_not_In _ _ Hs4 H Hk).
  - destruct Ho0 as [Hf _]. rewrite Hev, Hurl, Href, Hv0.
    repeat split; auto.
Qed.

(** X14.  When a render command throws, it is the last command of the
    run: no concatenation, no concat list, no audio staging and no read
    follow, and the run ends with the failure message and no video URL. *)
Theorem render_failure_aborts (s : State Env) (cmd : list string) :
  let r := createVideo String_number W p s in
  In (Exec cmd, false) (eventsOf r) -> nth 1 cmd EmptyString = "-loop" ->
  message (stateOf r) = failureMessage
  /\ videoUrl (stateOf r) = None
  /\ reads (eventsOf r) = []
  /\ ~ In concatCommand (execs (eventsOf r))
  /\ (forall name d, In (name, d) (writes (eventsOf r)) ->
        name <> "concat_list.txt" /\ name <> "audio_in")
  /\ exists before, execs (eventsOf r) = (before ++ [cmd])%list.
Proof.
  intros r Hin Hflag.
  unpack_trace s; fold r in Hin, Hev, Hbusy, Hprog, Hmsg, Hurl, Href, Henv.
  - exfalso. rewrite Hev in Hin.
    apply In_app5 in Hin. destruct Hin as [H | [H | [H | [H | H]]]].
    + apply In_execs in H. rewrite Hx0 in H. contradiction.
    + apply In_execs in H. rewrite Hx2 in H. contradiction.
    + apply In_execs in H. rewrite Hx3 in H. contradiction.
    + destruct Ho4 as [_ Hok]. now apply Hok in H.
    + apply In_execs in H. apply (startOf_In _ _ _ Hst5) in H.
      destruct H as [H | H]; [subst cmd; discriminate |].
      unfold muxPlan in H. destruct (audioFile p); [| contradiction].
      destruct H as [H | []]. subst cmd. discriminate.
  - destruct Hu2 as [_ [_ [Hv2 _]]], Hu3 as [_ [_ [Hv3 _]]],
      Hu4 as [_ [_ [Hv4 _]]].
    split; [exact Hmsg |].
    split; [rewrite Hurl, Hv4, Hv3, Hv2, Hv0; reflexivity |].
    split; [rewrite Hev, !reads_app, Hr0, Hr2, Hr3, Hr4; reflexivity |].
    assert (Hx : execs (eventsOf r) = execs el)
      by (rewrite Hev, !execs_app, Hx0, Hx2, Hx3; reflexivity).
    split; [| split].
    + rewrite Hx. intros C. apply (startOf_In _ _ _ Hst4) in C.
      apply renderCommands_flag in C. discriminate.
    + intros name d Hw. rewrite Hev, !writes_app, Hw0, Hw2 in Hw.
      cbn [app] in Hw. apply in_app_or in Hw. destruct Hw as [Hw | Hw].
      * apply Hw3 in Hw. subst name. split; discriminate.
      * apply Hw4 in Hw. destruct Hw as [k [it [_ Hn]]]. subst name.
        unfold inputName. cbn [append]. split; discriminate.
    + pose proof E4 as E4'. apply renderItems_throw_last in E4'.
      destruct E4' as [pre [c [Hel Hpre]]].
      assert (Hl : In (Exec cmd, false) el).
      { rewrite Hev in Hin. apply In_app4 in Hin.
        destruct Hin as [H | [H | [H | H]]]; [| | | exact H]; exfalso.
        - apply In_execs in H. rewrite Hx0 in H. contradiction.
        - apply In_execs in H. rewrite Hx2 in H. contradiction.
        - apply In_execs in H. rewrite Hx3 in H. contradiction. }
      rewrite Hel in Hl. apply in_app_or in Hl. destruct Hl as [Hl | Hl].
      * now apply Hpre in Hl.
      * destruct Hl as [Hl | []]. inversion Hl; subst c.
        exists (execs pre). rewrite Hx, Hel, execs_app. reflexivity.
  - exfalso. rewrite Hev in Hin. apply In_execs in Hin.
    rewrite Hx0 in Hin. contradiction.
Qed.

(** Where an event of the end of the run can be. *)
Lemma exec_at_end (s : State Env) (cmd : list string) (ok : bool) :
  let r := createVideo String_number W p s in
  In (Exec cmd, ok) (eventsOf r) -> nth 1 cmd EmptyString <> "-loop" ->
  exists fontPath parts s4 o5 s5 el e5 before,
    finish W p parts s4 = (o5, s5, e5)
    /\ In (Exec cmd, ok) e5
    /\ eventsOf r = (before ++ el ++ e5)%list
    /\ execs before = [] /\ reads before = []
    /\ (forall name d, In (name, d) (writes before) -> name = "font.ttf")
    /\ execs el = renderCommands String_number p fontPath 0 (items p)
    /\ reads el = []
    /\ (forall name d, In (name, d) (writes el) ->
          exists k it, name = inputName k it)
    /\ parts = map partName (seq 0 (List.length (items p)))
    /\ videoUrl s4 = None
    /\ videoUrl (stateOf r) = videoUrl s5
    /\ message (stateOf r)
       = match o5 with Ok _ => message s5 | Throw => failureMessage end.
Proof.
  intros r Hin Hflag.
  unpack_trace s; fold r in Hin, Hev, Hbusy, Hprog, Hmsg, Hurl, Href, Henv.
  - destruct Ho4 as [Hx4 _].
    exists fontPath, parts, s4, o5, s5, el, e5, (e0 ++ er ++ ef)%list.
    split; [exact E5 | split].
    { rewrite Hev in Hin.
      apply In_app5 in Hin. destruct Hin as [H | [H | [H | [H | H]]]];
        [| | | | exact H]; exfalso.
      - apply In_execs in H. rewrite Hx0 in H. contradiction.
      - apply In_execs in H. rewrite Hx2 in H. contradiction.
      - apply In_execs in H. rewrite Hx3 in H. contradiction.
      - apply In_execs in H. rewrite Hx4 in H.
        apply renderCommands_flag in H. contradiction. }
    split; [rewrite Hev, <- !app_assoc; reflexivity |].
    split; [rewrite !execs_app, Hx0, Hx2, Hx3; reflexivity |].
    split; [rewrite !reads_app, Hr0, Hr2, Hr3; reflexivity |].
    split.
    { intros name d Hw. rewrite !writes_app, Hw0, Hw2 in Hw. cbn [app] in Hw.
      eapply Hw3. eassumption. }
    split; [exact Hx4 | split; [exact Hr4 | split]].
    { intros name d Hw. apply Hw4 in Hw. destruct Hw as [k [it [_ Hn]]].
      eauto. }
    split; [now apply Hp4 |].
    destruct Hu2 as [_ [_ [Hv2 _]]], Hu3 as [_ [_ [Hv3 _]]],
      Hu4 as [_ [_ [Hv4 _]]].
    split; [rewrite Hv4, Hv3, Hv2, Hv0; reflexivity | auto].
  - exfalso. rewrite Hev in Hin.
    apply In_app4 in Hin. destruct Hin as [H | [H | [H | H]]].
    + apply In_execs in H. rewrite Hx0 in H. contradiction.
    + apply In_execs in H. rewrite Hx2 in H. contradiction.
    + apply In_execs in H. rewrite Hx3 in H. contradiction.
    + apply In_execs in H. apply (startOf_In _ _ _ Hst4) in H.
      apply renderCommands_flag in H. contradiction.
  - exfalso. rewrite Hev in Hin. apply In_execs in Hin.
    rewrite Hx0 in Hin. contradiction.
Qed.

(** X15.  When the concatenation command throws, the run ends with the
    failure message and no video URL; every item was rendered before it
    and nothing comes after it: the audio is not staged and nothing is
    read. *)
Theorem concat_failure_aborts (s : State Env) :
  let r := createVideo String_number W p s in
  In (Exec concatCommand, false) (eventsOf r) ->
  message (stateOf r) = failureMessage
  /\ videoUrl (stateOf r) = None
  /\ reads (eventsOf r) = []
  /\ (forall d, ~ In ("audio_in", d) (writes (eventsOf r)))
  /\ exists fontPath,
       execs (eventsOf r)
       = (renderCommands String_number p fontPath 0 (items p)
            ++ [concatCommand])%list.
Proof.
  intros r Hin.
  destruct (exec_at_end s concatCommand false Hin ltac:(discriminate))
    as [fontPath [parts [s4 [o5 [s5 [el [e5 [before
         [E5 [H5 [Hev [Hxb [Hrb [Hwb [Hxl [Hrl [Hwl [_ [Hv4 [Hurl Hmsg]]]]]]]]]]]]]]]]]]]].
  fold r in Hev, Hurl, Hmsg.
  pose proof E5 as Hfin. apply finish_failures in Hfin.
  destruct Hfin as [Hc _]. destruct (Hc H5) as [Ho [Hx5 [Hr5 Hw5]]]. subst o5.
  pose proof E5 as Hfr. apply finish_more in Hfr.
  destruct Hfr as [_ [_ [_ [_ [_ [_ [_ Hv5]]]]]]].
  split; [exact Hmsg |].
  split; [rewrite Hurl, Hv5; exact Hv4 |].
  split; [rewrite Hev, !reads_app, Hrb, Hrl, Hr5; reflexivity |].
  split.
  - intros d Hw. rewrite Hev, !writes_app in Hw.
    apply in_app_or in Hw. destruct Hw as [Hw | Hw].
    + apply Hwb in Hw. discriminate.
    + apply in_app_or in Hw. destruct Hw as [Hw | Hw].
      * apply Hwl in Hw. destruct Hw as [k [it Hn]].
        unfold inputName in Hn. cbn [append] in Hn. discriminate.
      * now apply Hw5 in Hw.
  - exists fontPath. rewrite Hev, !execs_app, Hxb, Hxl, Hx5. reflexivity.
Qed.

(** X16.  Whenever [concat_list.txt] is written, its content is the
    encoding of the list text of [part_0.mp4] to [part_(N-1).mp4], in this
    order, for the [N] items of the run. *)
Theorem manifest_lists_parts_in_order (s : State Env) (data : bytes) (ok : bool) :
  let r := createVideo String_number W p s in
  In (WriteFile "concat_list.txt" data, ok) (eventsOf r) ->
  data = TextEncoder_encode
           (listTxt (map partName (seq 0 (List.length (items p))))).
Proof.
  intros r Hin. apply In_writes in Hin.
  unpack_trace s; fold r in Hin, Hev, Hbusy, Hprog, Hmsg, Hurl, Href, Henv;
    rewrite Hev, ?writes_app, Hw0 in Hin; try rewrite Hw2 in Hin;
    cbn [app] in Hin.
  - apply in_app_or in Hin. destruct Hin as [H | H].
    { apply Hw3 in H. discriminate. }
    apply in_app_or in H. destruct H as [H | H].
    { apply Hw4 in H. destruct H as [k [it [_ Hn]]].
      unfold inputName in Hn. cbn [append] in Hn. discriminate. }
    apply Hw5 in H. destruct H as [[_ Hd] | H]; [| discriminate].
    rewrite Hd. destruct Ho4 as [_ _]. now rewrite (Hp4 parts eq_refl).
  - exfalso. apply in_app_or in Hin. destruct Hin as [H | H].
    { apply Hw3 in H. discriminate. }
    apply Hw4 in H. destruct H as [k [it [_ Hn]]].
    unfold inputName in Hn. cbn [append] in Hn. discriminate.
  - contradiction.
Qed.

(** X17.  In a run whose mux command returned there is an audio file, it
    was staged as [audio_in], and the one file read is [final.mp4]; when
    that read returns, the run ends with the success message and a video
    URL. *)
Theorem mux_success_reads_final (s : State Env) :
  let r := createVideo String_number W p s in
  In (Exec (muxCommand "final.mp4"), true) (eventsOf r) ->
  reads (eventsOf r) = ["final.mp4"]
  /\ audioFile p <> None
  /\ (exists d, In (WriteFile "audio_in" d, true) (eventsOf r))
  /\ (In (ReadFile "final.mp4", true) (eventsOf r) ->
        message (stateOf r) = successMessage
        /\ exists url, videoUrl (stateOf r) = Some url).
Proof.
  intros r Hin.
  destruct (exec_at_end s (muxCommand "final.mp4") true Hin ltac:(discriminate))
    as [fontPath [parts [s4 [o5 [s5 [el [e5 [before
         [E5 [H5 [Hev [Hxb [Hrb [Hwb [Hxl [Hrl [Hwl [_ [Hv4 [Hurl Hmsg]]]]]]]]]]]]]]]]]]]].
  fold r in Hev, Hurl, Hmsg.
  pose proof E5 as Hfin. apply finish_failures in Hfin.
  destruct Hfin as [_ [_ [_ [_ Hm]]]].
  destruct (Hm H5) as [Hr5 [[d Hd] Hok]].
  split; [rewrite Hev, !reads_app, Hrb, Hrl, Hr5; reflexivity |].
  split.
  { intros Ha. pose proof E5 as Hs. apply finish_spec in Hs.
    destruct Hs as [_ [Hst _]]. apply In_execs in H5.
    apply (startOf_In _ _ _ Hst) in H5. unfold muxPlan in H5. rewrite Ha in H5.
    destruct H5 as [H5 | []]. discriminate. }
  split.
  { exists d. rewrite Hev. apply in_or_app. right. apply in_or_app. now right. }
  intros Hread.
  assert (Hr : In (ReadFile "final.mp4", true) e5).
  { rewrite Hev in Hread. apply in_app_or in Hread.
    destruct Hread as [H | H].
    - apply In_reads in H. rewrite Hrb in H. contradiction.
    - apply in_app_or in H. destruct H as [H | H]; [| exact H].
      apply In_reads in H. rewrite Hrl in H. contradiction. }
  specialize (Hok Hr). subst o5.
  pose proof E5 as Hs. apply finish_spec in Hs.
  destruct Hs as [_ [_ [_ [Hmsg5 [Hu _]]]]].
  rewrite Hmsg, Hurl. auto.
Qed.

(** Where a call of the end of the run that is no command can be. *)
Lemma failure_at_end (s : State Env) (c : Call) :
  let r := createVideo String_number W p s in
  In (c, false) (eventsOf r) ->
  (exists n, c = ReadFile n) \/ (exists d, c = WriteFile "audio_in" d) ->
  exists parts s4 o5 s5 e5 before,
    finish W p parts s4 = (o5, s5, e5)
    /\ In (c, false) e5
    /\ eventsOf r = (before ++ e5)%list
    /\ reads before = []
    /\ ~ In concatCommand (execs before)
    /\ ~ In (muxCommand "final.mp4") (execs before)
    /\ videoUrl s4 = None
    /\ videoUrl (stateOf r) = videoUrl s5
    /\ message (stateOf r)
       = match o5 with Ok _ => message s5 | Throw => failureMessage end.
Proof.
  intros r Hin Hc.
  assert (Hnot : forall evs,
            reads evs = [] ->
            (forall name d, In (name, d) (writes evs) -> name <> "audio_in") ->
            ~ In (c, false) evs).
  { intros evs Hr Hw H. destruct Hc as [[n Hc] | [d Hc]]; subst c.
    - apply In_reads in H. rewrite Hr in H. contradiction.
    - apply In_writes in H. apply Hw in H. congruence. }
  unpack_trace s; fold r in Hin, Hev, Hbusy, Hprog, Hmsg, Hurl, Href, Henv.
  - destruct Ho4 as [Hx4 _].
    exists parts, s4, o5, s5, e5, (e0 ++ er ++ ef ++ el)%list.
    assert (Hrb : reads (e0 ++ er ++ ef ++ el) = [])
      by (rewrite !reads_app, Hr0, Hr2, Hr3, Hr4; reflexivity).
    assert (Hxb : execs (e0 ++ er ++ ef ++ el)
                  = renderCommands String_number p fontPath 0 (items p))
      by (rewrite !execs_app, Hx0, Hx2, Hx3, Hx4; reflexivity).
    split; [exact E5 | split].
    { rewrite Hev in Hin.
      replace (e0 ++ er ++ ef ++ el ++ e5)%list
        with ((e0 ++ er ++ ef ++ el) ++ e5)%list in Hin
        by (now rewrite <- !app_assoc).
      apply in_app_or in Hin. destruct Hin as [H | H]; [exfalso | exact H].
      revert H. apply Hnot; [exact Hrb |].
      intros name d Hw. rewrite !writes_app, Hw0, Hw2 in Hw. cbn [app] in Hw.
      apply in_app_or in Hw. destruct Hw as [Hw | Hw].
      - apply Hw3 in Hw. subst name. discriminate.
      - apply Hw4 in Hw. destruct Hw as [k [it [_ Hn]]]. subst name.
        unfold inputName. cbn [append]. discriminate. }
    split; [rewrite Hev, <- !app_assoc; reflexivity |].
    split; [exact Hrb |].
    split; [rewrite Hxb; intros C; apply renderCommands_flag in C; discriminate |].
    split; [rewrite Hxb; intros C; apply renderCommands_flag in C; discriminate |].
    destruct Hu2 as [_ [_ [Hv2 _]]], Hu3 as [_ [_ [Hv3 _]]],
      Hu4 as [_ [_ [Hv4 _]]].
    split; [rewrite Hv4, Hv3, Hv2, Hv0; reflexivity | auto].
  - exfalso. revert Hin. rewrite Hev. apply Hnot.
    + rewrite !reads_app, Hr0, Hr2, Hr3, Hr4. reflexivity.
    + intros name d Hw. rewrite !writes_app, Hw0, Hw2 in Hw. cbn [app] in Hw.
      apply in_app_or in Hw. destruct Hw as [Hw | Hw].
      * apply Hw3 in Hw. subst name. discriminate.
      * apply Hw4 in Hw. destruct Hw as [k [it [_ Hn]]]. subst name.
        unfold inputName. cbn [append]. discriminate.
  - exfalso. revert Hin. rewrite Hev. apply Hnot; [exact Hr0 |].
    intros name d Hw. rewrite Hw0 in Hw. contradiction.
Qed.

(** X18.  Only the mux command is recovered from: when writing
    [audio_in] throws, after the concatenation has returned, the run ends
    with the failure message and no video URL, without running the mux
    command and without reading anything. *)
Theorem audio_staging_failure_is_fatal (s : State Env) (d : bytes) :
  let r := createVideo String_number W p s in
  In (WriteFile "audio_in" d, false) (eventsOf r) ->
  message (stateOf r) = failureMessage
  /\ videoUrl (stateOf r) = None
  /\ reads (eventsOf r) = []
  /\ ~ In (muxCommand "final.mp4") (execs (eventsOf r))
  /\ In (Exec concatCommand, true) (eventsOf r).
Proof.
  intros r Hin.
  destruct (failure_at_end s _ Hin ltac:(right; eexists; reflexivity))
    as [parts [s4 [o5 [s5 [e5 [before
         [E5 [H5 [Hev [Hrb [Hcb [Hmb [Hv4 [Hurl Hmsg]]]]]]]]]]]]]].
  fold r in Hev, Hurl, Hmsg.
  pose proof E5 as Hfin. apply finish_failures in Hfin.
  destruct Hfin as [_ [Hw _]].
  destruct (Hw d H5) as [Ho [Hx5 [Hr5 Hc5]]]. subst o5.
  pose proof E5 as Hfr. apply finish_more in Hfr.
  destruct Hfr as [_ [_ [_ [_ [_ [_ [_ Hv5]]]]]]].
  split; [exact Hmsg |].
  split; [rewrite Hurl, Hv5; exact Hv4 |].
  split; [rewrite Hev, reads_app, Hrb, Hr5; reflexivity |].
  split.
  - rewrite Hev, execs_app, Hx5. intros C. apply in_app_or in C.
    destruct C as [C | [C | []]]; [now apply Hmb in C | discriminate].
  - rewrite Hev. apply in_or_app. now right.
Qed.

(** X19.  When the read of the final file throws, the run ends with the
    failure message and no video URL; the file was [output_video.mp4] or
    [final.mp4] and it is the one read of the run. *)
Theorem read_failure_is_fatal (s : State Env) (n : string) :
  let r := createVideo String_number W p s in
  In (ReadFile n, false) (eventsOf r) ->
  message (stateOf r) = failureMessage
  /\ videoUrl (stateOf r) = None
  /\ reads (eventsOf r) = [n]
  /\ (n = "output_video.mp4" \/ n = "final.mp4").
Proof.
  intros r Hin.
  destruct (failure_at_end s _ Hin ltac:(left; eexists; reflexivity))
    as [parts [s4 [o5 [s5 [e5 [before
         [E5 [H5 [Hev [Hrb [Hcb [Hmb [Hv4 [Hurl Hmsg]]]]]]]]]]]]]].
  fold r in Hev, Hurl, Hmsg.
  pose proof E5 as Hfin. apply finish_failures in Hfin.
  destruct Hfin as [_ [_ [_ [Hr _]]]]. specialize (Hr n H5). subst o5.
  pose proof E5 as Hfr. apply finish_more in Hfr.
  destruct Hfr as [_ [_ [_ [_ [_ [_ [_ Hv5]]]]]]].
  split; [exact Hmsg |].
  split; [rewrite Hurl, Hv5; exact Hv4 |].
  apply In_reads in H5.
  pose proof E5 as Hrd. apply finish_reads in Hrd.
  rewrite Hev, reads_app, Hrb. cbn [app].
  destruct Hrd as [[Hn _] | [[Hn _] | [Hn _]]]; rewrite Hn in H5 |- *.
  - contradiction.
  - destruct H5 as [H5 | []]. subst n. auto.
  - destruct H5 as [H5 | []]. subst n. auto.
Qed.

(** X20.  The reset of the scratch directory never throws and changes
    nothing of the component state.  When the listing returns, [deleteFile]
    is called once, in the order of the listing, for every entry whose name
    is not empty, [.] or [..], also after a deletion that threw; when the
    listing throws, nothing is deleted. *)
Theorem resetFS_deletes_listed (s : State Env) :
  let r := resetFS W s in
  outcomeOf r = Ok tt
  /\ sameUI s (stateOf r)
  /\ execs (eventsOf r) = [] /\ writes (eventsOf r) = []
  /\ match fst (w_listDir W (env s) "/") with
     | Some files =>
         deletions (eventsOf r)
         = map (fun f => "/" ++ node_name f) (filter stale files)
     | None => eventsOf r = [(ListDir "/", false)]
     end.
Proof.
  intros r. destruct r as [[o s1] e1] eqn:Er. unfold r in Er.
  pose proof Er as H1. apply resetFS_spec in H1.
  destruct H1 as [Ho [Hx _]].
  apply resetFS_more in Er. destruct Er as [Hu [_ [Hw Hd]]].
  unfold outcomeOf, stateOf, eventsOf. cbn [fst snd].
  split; [exact Ho | split; [exact Hu | split; [exact Hx | split; [exact Hw |]]]].
  destruct (fst (w_listDir W (env s) "/")); [tauto | exact Hd].
Qed.

End Run.

(* ================================================================== *)
(** * Worked runs *)
(* ================================================================== *)

Ltac pick_event := repeat (try (left; reflexivity); right).


(** A click with no item. *)
Lemma empty_sequence_rejected_witness :
  canCreate emptySnapshot idle = false
  /\ clickCreate String_decimal (sampleWorld true true) emptySnapshot idle
     = (Ok tt, idle, [])
  /\ eventsOf (clickCreate String_decimal (sampleWorld true true) emptySnapshot idle)
     = [].
Proof.
  apply (empty_sequence_rejected String_decimal unit (sampleWorld true true)
           emptySnapshot idle).
  reflexivity.
Defined.

(** [createVideo] itself has no such guard: called with no item it loads
    the engine, clears the scratch directory and runs the concatenation. *)
Lemma createVideo_unguarded :
  let r := createVideo String_decimal (sampleWorld true true) emptySnapshot idle in
  execs (eventsOf r) = [concatCommand]
  /\ hd_error (eventsOf r)
     = Some (ToBlobURL "https://unpkg.com/@ffmpeg/core@0.12.6/dist/ffmpeg-core.js"
               "text/javascript", true).
Proof. split; reflexivity. Qed.

(** The three sample items without audio: four commands, the third with
    the duration raised to 0.2 seconds. *)
Lemma render_once_per_item_witness :
  let r := createVideo String_decimal (sampleWorld true true)
             (sampleSnapshot None) idle in
  List.length (execs (eventsOf r)) = 4%nat
  /\ (exists fontPath,
        nth_error (execs (eventsOf r)) 2
        = Some (renderCommand String_decimal (sampleSnapshot None) fontPath 2
                  (mkMediaItem "c" (mkFile "three" []) " " (Num (1 # 10)))))
  /\ Math_max lit_0_2 (Num (3 # 1)) = Num (3 # 1)
  /\ nth 4 (renderCommand String_decimal (sampleSnapshot None) "font.ttf" 2
              (mkMediaItem "c" (mkFile "three" []) " " (Num (1 # 10)))) EmptyString
     = "0.2".
Proof.
  intros r.
  destruct (render_once_per_item String_decimal unit (sampleWorld true true)
              (sampleSnapshot None)) as [_ [Hmax [_ Hrun]]].
  destruct (Hrun idle) as [fontPath [_ [Hlen Hnth]]]; [reflexivity |].
  fold r in Hlen, Hnth.
  split; [exact Hlen | split; [| split]].
  - exists fontPath. apply Hnth. reflexivity.
  - apply (Hmax (Num (3 # 1))); [discriminate | reflexivity].
  - reflexivity.
Defined.



(* ================================================================== *)
(** * Further properties: the list edits, the names and the texts *)
(* ================================================================== *)

Section Editing.

Lemma removeItem_In (id0 : string) (prev : list MediaItem) (x : MediaItem) :
  In x (removeItem id0 prev) <-> In x prev /\ id x <> id0.
Proof.
  unfold removeItem. rewrite filter_In, negb_true_iff, String.eqb_neq. tauto.
Qed.

Lemma removeItem_absent (id0 : string) (prev : list MediaItem) :
  (forall x, In x prev -> id x <> id0) -> removeItem id0 prev = prev.
Proof.
  intros H. unfold removeItem. induction prev as [| it prev IH]; [reflexivity |].
  cbn [filter].
  assert (E : String.eqb (id it) id0 = false)
    by (apply String.eqb_neq; apply H; now left).
  rewrite E. cbn [negb]. f_equal. apply IH. intros x Hx. apply H. now right.
Qed.

End Editing.

(** X1.  [removeItem] drops exactly the items with the given identifier:
    the others stay, in their order; removing twice is removing once; an
    identifier that no item has leaves the list as it is. *)
Theorem removeItem_removes_exactly (id0 : string) (prev : list MediaItem) :
  (forall x, In x (removeItem id0 prev) <-> In x prev /\ id x <> id0)
  /\ (forall pre it post,
        prev = (pre ++ it :: post)%list -> id it <> id0 ->
        removeItem id0 prev
        = (removeItem id0 pre ++ it :: removeItem id0 post)%list)
  /\ removeItem id0 (removeItem id0 prev) = removeItem id0 prev
  /\ ((forall x, In x prev -> id x <> id0) -> removeItem id0 prev = prev)
  /\ (List.length (removeItem id0 prev) <= List.length prev)%nat.
Proof.
  split; [intros x; apply removeItem_In |].
  split.
  { intros pre it post E Hid. subst prev. unfold removeItem.
    rewrite filter_app. cbn [filter].
    apply String.eqb_neq in Hid. now rewrite Hid. }
  split.
  { apply removeItem_absent. intros x Hx. apply removeItem_In in Hx. tauto. }
  split; [apply removeItem_absent |].
  unfold removeItem. apply filter_length_le.
Qed.

Section EditingMore.

Lemma updateItem_length (id0 : string) (patch : MediaItemPatch)
    (prev : list MediaItem) :
  List.length (updateItem id0 patch prev) = List.length prev.
Proof. unfold updateItem. apply length_map. Qed.

Lemma spread_id (it : MediaItem) (patch : MediaItemPatch) :
  patch_id patch = None -> id (spread it patch) = id it.
Proof. intros H. unfold spread. cbn. now rewrite H. Qed.

Lemma updateItem_ids (id0 : string) (patch : MediaItemPatch)
    (prev : list MediaItem) :
  patch_id patch = None -> map id (updateItem id0 patch prev) = map id prev.
Proof.
  intros H. unfold updateItem. rewrite map_map. apply map_ext.
  intros it. destruct (String.eqb (id it) id0); [now apply spread_id | reflexivity].
Qed.

Lemma updateItem_absent (id0 : string) (patch : MediaItemPatch)
    (prev : list MediaItem) :
  (forall x, In x prev -> id x <> id0) -> updateItem id0 patch prev = prev.
Proof.
  intros H. unfold updateItem. rewrite <- (map_id prev) at 2.
  apply map_ext_in. intros it Hit.
  apply H in Hit. apply String.eqb_neq in Hit. now rewrite Hit.
Qed.

Lemma lit_3_valid : le lit_0_2 lit_3 /\ le lit_3 lit_120.
Proof. split; reflexivity. Qed.

Lemma newItems_valid (freshId : nat -> string) (files : list File) :
  forall k, Forall durationValid (newItems freshId k files).
Proof.
  induction files as [| f rest IH]; intros k; cbn [newItems]; constructor.
  - exact lit_3_valid.
  - apply IH.
Qed.

Lemma newItems_length (freshId : nat -> string) (files : list File) :
  forall k, List.length (newItems freshId k files) = List.length files.
Proof.
  induction files as [| f rest IH]; intros k; cbn; [reflexivity | now rewrite IH].
Qed.

Lemma newItems_nth (freshId : nat -> string) (files : list File) :
  forall k n f,
  nth_error files n = Some f ->
  nth_error (newItems freshId k files) n
  = Some (mkMediaItem (freshId (k + n)%nat) f EmptyString lit_3).
Proof.
  induction files as [| x rest IH]; intros k n f H.
  - destruct n; discriminate.
  - destruct n as [| n]; cbn in H |- *.
    + inversion H; subst. now rewrite Nat.add_0_r.
    + rewrite (IH (S k) n f H). now rewrite Nat.add_succ_r.
Qed.

Lemma newItems_files (freshId : nat -> string) (files : list File) :
  forall k, map file (newItems freshId k files) = files.
Proof.
  induction files as [| x rest IH]; intros k; cbn; [reflexivity | now rewrite IH].
Qed.

End EditingMore.

(** X2.  [updateItem] with a patch that has no identifier keeps the
    length, the identifiers and the order of the list; an item with another
    identifier is left as it is, an item with the identifier is merged with
    the patch, and an identifier that no item has leaves the list as it
    is. *)
Theorem updateItem_touches_only_target (id0 : string) (patch : MediaItemPatch)
    (prev : list MediaItem) :
  patch_id patch = None ->
  List.length (updateItem id0 patch prev) = List.length prev
  /\ map id (updateItem id0 patch prev) = map id prev
  /\ (forall k it, nth_error prev k = Some it -> id it <> id0 ->
        nth_error (updateItem id0 patch prev) k = Some it)
  /\ (forall k it, nth_error prev k = Some it -> id it = id0 ->
        nth_error (updateItem id0 patch prev) k = Some (spread it patch))
  /\ ((forall x, In x prev -> id x <> id0) -> updateItem id0 patch prev = prev).
Proof.
  intros Hp.
  split; [apply updateItem_length |].
  split; [now apply updateItem_ids |].
  split; [| split; [| apply updateItem_absent]].
  - intros k it Hk Hid. unfold updateItem. rewrite nth_error_map, Hk. cbn.
    apply String.eqb_neq in Hid. now rewrite Hid.
  - intros k it Hk Hid. unfold updateItem. rewrite nth_error_map, Hk. cbn.
    apply String.eqb_eq in Hid. now rewrite Hid.
Qed.

(** X3.  The edits of the list do not depend on their order: a caption
    change and a duration change commute, and removing an item commutes
    with both. *)
Theorem edits_commute (Number_ : string -> number) (a b : MediaItem)
    (c value id0 : string) (prev : list MediaItem) :
  onChangeCaption a c (onChangeDuration Number_ b value prev)
  = onChangeDuration Number_ b value (onChangeCaption a c prev)
  /\ removeItem id0 (onChangeCaption a c prev)
     = onChangeCaption a c (removeItem id0 prev)
  /\ removeItem id0 (onChangeDuration Number_ b value prev)
     = onChangeDuration Number_ b value (removeItem id0 prev).
Proof.
  assert (Hrem : forall id1 patch l, patch_id patch = None ->
            removeItem id0 (updateItem id1 patch l)
            = updateItem id1 patch (removeItem id0 l)).
  { intros id1 patch l Hp. unfold removeItem, updateItem.
    induction l as [| it l IH]; [reflexivity |].
    cbn [map filter].
    assert (E : id (if String.eqb (id it) id1 then spread it patch else it) = id it)
      by (destruct (String.eqb (id it) id1); [now apply spread_id | reflexivity]).
    rewrite E. destruct (negb (String.eqb (id it) id0)); cbn [map]; now rewrite IH. }
  split; [| split; apply Hrem; reflexivity].
  unfold onChangeCaption, onChangeDuration, updateItem.
  rewrite !map_map. apply map_ext. intros it.
  destruct (String.eqb (id it) (id b)) eqn:Eb;
    destruct (String.eqb (id it) (id a)) eqn:Ea;
    cbn; rewrite ?Ea, ?Eb; reflexivity.
Qed.

(** X4.  When every duration of the list lies in [[0.2, 120]], it still
    does after picking files (new items last 3 seconds), after a caption
    change, after a removal, and after a duration change whose text does
    not convert to NaN. *)
Theorem durations_stay_valid (Number_ : string -> number)
    (freshId : nat -> string) (files : option (list File))
    (it : MediaItem) (c value id0 : string) (prev : list MediaItem) :
  Forall durationValid prev ->
  Forall durationValid (onPickMedia freshId files prev)
  /\ Forall durationValid (onChangeCaption it c prev)
  /\ Forall durationValid (removeItem id0 prev)
  /\ (Number_ value <> NaN ->
        Forall durationValid (onChangeDuration Number_ it value prev)).
Proof.
  intros H. split; [| split; [| split]].
  - unfold onPickMedia. apply Forall_app. split; [exact H | apply newItems_valid].
  - unfold onChangeCaption, updateItem. apply Forall_map.
    apply Forall_impl with (2 := H). intros x Hx.
    destruct (String.eqb (id x) (id it)); exact Hx.
  - apply Forall_forall. intros x Hx. apply filter_In in Hx.
    rewrite Forall_forall in H. apply H. tauto.
  - intros Hn. unfold onChangeDuration, updateItem. apply Forall_map.
    apply Forall_impl with (2 := H). intros x Hx.
    destruct (String.eqb (id x) (id it)); [| exact Hx].
    unfold durationValid, spread, durationPatch.
    cbn [durationSec orElse patch_durationSec].
    apply clamp_between; try assumption; try discriminate. reflexivity.
Qed.

(** X5.  [onPickMedia] keeps the items there are and appends one item per
    picked file, in the order of the files, with an empty caption and a
    duration of 3; a null or empty selection leaves the list as it is. *)
Theorem onPickMedia_appends (freshId : nat -> string) (files : list File)
    (prev : list MediaItem) :
  onPickMedia freshId None prev = prev
  /\ onPickMedia freshId (Some []) prev = prev
  /\ List.length (onPickMedia freshId (Some files) prev)
     = (List.length prev + List.length files)%nat
  /\ firstn (List.length prev) (onPickMedia freshId (Some files) prev) = prev
  /\ map file (skipn (List.length prev) (onPickMedia freshId (Some files) prev))
     = files
  /\ (forall n f, nth_error files n = Some f ->
        nth_error (onPickMedia freshId (Some files) prev) (List.length prev + n)
        = Some (mkMediaItem (freshId n) f EmptyString lit_3)).
Proof.
  unfold onPickMedia. cbn [orElse newItems].
  split; [apply app_nil_r | split; [apply app_nil_r |]].
  split; [rewrite length_app, newItems_length; reflexivity |].
  split.
  { rewrite firstn_app, Nat.sub_diag, firstn_all. cbn. apply app_nil_r. }
  split.
  { rewrite skipn_app, Nat.sub_diag, skipn_all. cbn. apply newItems_files. }
  intros n f H. rewrite nth_error_app2 by lia.
  replace (List.length prev + n - List.length prev)%nat with n by lia.
  now apply (newItems_nth freshId files 0 n f).
Qed.

Section Names.

Lemma String_int_inj (a b : Z) : String_int a = String_int b -> a = b.
Proof.
  unfold String_int. intros H.
  assert (Hn : forall z, Z.to_int z <> Decimal.Pos Decimal.Nil
                        /\ Z.to_int z <> Decimal.Neg Decimal.Nil).
  { intros [| q | q]; cbn; split; try discriminate;
      intros E; inversion E as [E']; now apply Unsigned.to_uint_nonnil in E'. }
  apply DecimalZ.to_int_inj.
  pose proof (NilZero.isi (Z.to_int a) (proj1 (Hn a)) (proj2 (Hn a))) as Ha.
  pose proof (NilZero.isi (Z.to_int b) (proj1 (Hn b)) (proj2 (Hn b))) as Hb.
  rewrite H in Ha. congruence.
Qed.

Lemma append_cancel_r (a b c : string) : a ++ c = b ++ c -> a = b.
Proof.
  revert b. induction a as [| x a IH]; intros b H.
  - destruct b as [| y b]; [reflexivity |].
    exfalso. apply (f_equal String.length) in H.
    cbn in H. rewrite length_append in H. lia.
  - destruct b as [| y b].
    + exfalso. apply (f_equal String.length) in H.
      cbn in H. rewrite length_append in H. lia.
    + cbn in H. injection H as Hx Hr. subst y. f_equal. now apply IH.
Qed.

Lemma string_of_uint_digits (d : Decimal.uint) :
  allDigits (NilEmpty.string_of_uint d) = true.
Proof. induction d; cbn; auto. Qed.

Lemma String_nat_digits (n : nat) : allDigits (String_int (Z.of_nat n)) = true.
Proof.
  unfold String_int. destruct (Z.of_nat n) as [| q | q] eqn:E; try lia.
  - reflexivity.
  - cbn. pose proof (string_of_uint_digits (Pos.to_uint q)) as H.
    destruct (Pos.to_uint q); exact H || reflexivity.
Qed.

Lemma digits_then_stop (a b e1 e2 : string) :
  allDigits a = true -> allDigits b = true -> stops e1 -> stops e2 ->
  a ++ e1 = b ++ e2 -> a = b.
Proof.
  revert b. induction a as [| x a IH]; intros b Ha Hb H1 H2 E.
  - destruct b as [| y b]; [reflexivity |]. exfalso.
    cbn in E, Hb. apply andb_true_iff in Hb. destruct Hb as [Hy _].
    subst e1. cbn in H1. congruence.
  - cbn in Ha. apply andb_true_iff in Ha. destruct Ha as [Hx Ha].
    destruct b as [| y b].
    + exfalso. cbn in E. subst e2. cbn in H2. congruence.
    + cbn in E, Hb. apply andb_true_iff in Hb. destruct Hb as [_ Hb].
      injection E as Exy Er. subst y. f_equal. now apply (IH b).
Qed.

Lemma extOf_stops (s : string) : stops (extOf s).
Proof.
  destruct (last_dot_split s) as [H | [pre [suf [E H]]]].
  - rewrite (extOf_no_dot _ H). exact I.
  - subst s. rewrite (extOf_last_dot _ _ H). reflexivity.
Qed.

End Names.

Lemma append_cancel_l (p a b : string) : p ++ a = p ++ b -> a = b.
Proof.
  induction p as [| x p IH]; cbn; intros H; [exact H |].
  injection H as H. now apply IH.
Qed.

(** X6.  The names [createVideo] gives files in the scratch directory do
    not collide: the part names of two indices differ, the staged input
    names of two indices differ whatever the names of the picked files, and
    neither is the name of a part, of the concat list, of the font, of the
    staged audio or of an output. *)
Theorem scratch_names_do_not_collide :
  (forall i j, partName i = partName j -> i = j)
  /\ (forall i j a b, inputName i a = inputName j b -> i = j)
  /\ (forall i j a, inputName i a <> partName j)
  /\ (forall i a, inputName i a <> "concat_list.txt"
                  /\ inputName i a <> "font.ttf"
                  /\ inputName i a <> "audio_in"
                  /\ inputName i a <> "output_video.mp4"
                  /\ inputName i a <> "final.mp4")
  /\ (forall i, partName i <> "concat_list.txt"
                /\ partName i <> "font.ttf"
                /\ partName i <> "audio_in"
                /\ partName i <> "output_video.mp4"
                /\ partName i <> "final.mp4").
Proof.
  split; [| split; [| split; [| split]]].
  - intros i j H. unfold partName in H.
    apply append_cancel_l, append_cancel_r, String_int_inj in H.
    now apply Nat2Z.inj.
  - intros i j a b H. unfold inputName in H.
    apply append_cancel_l in H.
    apply digits_then_stop in H;
      try apply String_nat_digits; try apply extOf_stops.
    apply String_int_inj in H. now apply Nat2Z.inj.
  - intros i j a. unfold inputName, partName. cbn [append]. discriminate.
  - intros i a. unfold inputName. cbn [append]. repeat split; discriminate.
  - intros i. unfold partName. cbn [append].
    repeat split; discriminate.
Qed.

Section Blank.

Lemma trimStart_empty_iff (s : string) :
  trimStart s = EmptyString <-> allWhiteSpace s = true.
Proof.
  induction s as [| c s IH]; cbn [trimStart allWhiteSpace]; [tauto |].
  destruct (isWhiteSpace c); cbn [andb]; [exact IH |].
  split; discriminate.
Qed.

Lemma trimStart_keeps_visible (s : string) :
  allWhiteSpace (trimStart s) = allWhiteSpace s.
Proof.
  induction s as [| c s IH]; cbn [trimStart allWhiteSpace]; [reflexivity |].
  destruct (isWhiteSpace c) eqn:E; cbn [andb]; [exact IH |].
  cbn [allWhiteSpace]. now rewrite E.
Qed.

Lemma reverse_onto_allWhiteSpace (s acc : string) :
  allWhiteSpace (reverse_onto s acc) = allWhiteSpace s && allWhiteSpace acc.
Proof.
  revert acc. induction s as [| c s IH]; intros acc; cbn [reverse_onto allWhiteSpace].
  - reflexivity.
  - rewrite IH. cbn [allWhiteSpace].
    destruct (isWhiteSpace c), (allWhiteSpace s), (allWhiteSpace acc); reflexivity.
Qed.

Lemma reverse_allWhiteSpace (s : string) :
  allWhiteSpace (reverse s) = allWhiteSpace s.
Proof.
  unfold reverse. rewrite reverse_onto_allWhiteSpace. cbn. apply andb_true_r.
Qed.

Lemma trim_allWhiteSpace (s : string) :
  allWhiteSpace (trim s) = allWhiteSpace s.
Proof.
  unfold trim, trimEnd.
  now rewrite reverse_allWhiteSpace, trimStart_keeps_visible,
    reverse_allWhiteSpace, trimStart_keeps_visible.
Qed.

Lemma reverse_onto_empty (s acc : string) :
  reverse_onto s acc = EmptyString -> s = EmptyString /\ acc = EmptyString.
Proof.
  revert acc. induction s as [| c s IH]; intros acc H; cbn in H; [auto |].
  apply IH in H. destruct H as [_ H]. discriminate.
Qed.

(** The trimmed text is empty exactly when the text is blank. *)
Lemma trim_empty_iff (s : string) :
  trim s = EmptyString <-> allWhiteSpace s = true.
Proof.
  split.
  - intros H. rewrite <- trim_allWhiteSpace, H. reflexivity.
  - intros H. unfold trim.
    apply trimStart_empty_iff in H. rewrite H. reflexivity.
Qed.

End Blank.

(** X7.  An item gets the text overlay exactly when its caption has a
    character that is not white space and there is a font path: a caption
    of spaces, tabs and line breaks alone is rendered with [scalePad]
    alone. *)
Theorem blank_caption_has_no_overlay (w h : Z) (cap fontPath : string) :
  (hasCaption cap fontPath = true
   <-> allWhiteSpace cap = false /\ fontPath <> EmptyString)
  /\ (allWhiteSpace cap = true -> vf w h cap fontPath = scalePad w h)
  /\ (allWhiteSpace cap = false -> fontPath <> EmptyString ->
        vf w h cap fontPath
        = scalePad w h ++ "," ++ drawtext w h cap fontPath).
Proof.
  assert (Hiff : hasCaption cap fontPath = true
                 <-> allWhiteSpace cap = false /\ fontPath <> EmptyString).
  { rewrite hasCaption_iff. rewrite trim_empty_iff.
    destruct (allWhiteSpace cap); split; intros [H1 H2]; split;
      congruence. }
  split; [exact Hiff | split].
  - intros H. unfold vf.
    destruct (hasCaption cap fontPath) eqn:E; [| reflexivity].
    destruct (proj1 Hiff eq_refl) as [E' _]. congruence.
  - intros H1 H2. unfold vf.
    replace (hasCaption cap fontPath) with true; [reflexivity |].
    symmetry. apply Hiff. auto.
Qed.

Section Plain.

Lemma escapeChar_length (c : ascii) :
  String.length (escapeChar c)
  = (1 + 2 * (if Ascii.eqb c ":" then 1 else 0)
       + 2 * (if Ascii.eqb c "'" then 1 else 0)
       + (if Ascii.eqb c "\" then 1 else 0))%nat.
Proof.
  unfold escapeChar.
  destruct (Ascii.eqb c ":") eqn:E1.
  { apply Ascii.eqb_eq in E1. subst c. reflexivity. }
  destruct (Ascii.eqb c "'") eqn:E2.
  { apply Ascii.eqb_eq in E2. subst c. reflexivity. }
  destruct (Ascii.eqb c "\") eqn:E3; reflexivity.
Qed.

Lemma escapeDrawtext_length (s : string) :
  String.length (escapeDrawtext s)
  = (String.length s + 2 * countChar ":" s + 2 * countChar "'" s
       + countChar "\" s)%nat.
Proof.
  rewrite escapeDrawtext_one_pass.
  induction s as [| c s IH]; [reflexivity |].
  cbn [flatMap countChar String.length].
  rewrite length_append, escapeChar_length, IH. lia.
Qed.

Lemma countChar_zero (c : ascii) (s : string) :
  countChar c s = O <-> occurs c s = false.
Proof.
  induction s as [| a s IH]; cbn [countChar occurs]; [tauto |].
  destruct (Ascii.eqb a c); cbn [orb].
  - split; [lia | discriminate].
  - exact IH.
Qed.

Lemma escapeDrawtext_plain (s : string) :
  occurs ":" s = false -> occurs "'" s = false -> occurs "\" s = false ->
  escapeDrawtext s = s.
Proof.
  rewrite escapeDrawtext_one_pass.
  induction s as [| c s IH]; [reflexivity |].
  cbn [occurs flatMap]. intros H1 H2 H3.
  apply orb_false_iff in H1, H2, H3.
  destruct H1 as [E1 H1], H2 as [E2 H2], H3 as [E3 H3].
  unfold escapeChar at 1. rewrite E1, E2, E3. cbn [append].
  now rewrite IH.
Qed.

End Plain.

(** X8.  [escapeDrawtext] adds two characters for every colon and every
    single quote and one for every backslash, and nothing else: it returns
    the caption unchanged exactly when the caption has none of the
    three. *)
Theorem escapeDrawtext_grows_by_its_escapes (s : string) :
  String.length (escapeDrawtext s)
  = (String.length s + 2 * countChar ":" s + 2 * countChar "'" s
       + countChar "\" s)%nat
  /\ (escapeDrawtext s = s
      <-> occurs ":" s = false /\ occurs "'" s = false /\ occurs "\" s = false).
Proof.
  split; [apply escapeDrawtext_length |].
  split.
  - intros H. apply (f_equal String.length) in H.
    rewrite escapeDrawtext_length in H.
    rewrite <- !countChar_zero. lia.
  - intros [H1 [H2 H3]]. now apply escapeDrawtext_plain.
Qed.

Section ClampMore.

Lemma clamp_idempotent (n : number) :
  clamp (clamp n lit_0_2 lit_120) lit_0_2 lit_120 = clamp n lit_0_2 lit_120.
Proof.
  unfold clamp, lit_0_2, lit_120.
  destruct n as [| | q |]; cbn; try reflexivity.
  destruct (Qle_bool (120 # 1) q) eqn:E1; cbn.
  - reflexivity.
  - destruct (Qle_bool (1 # 5) q) eqn:E2; cbn.
    + now rewrite E1, E2.
    + reflexivity.
Qed.

End ClampMore.

(** X9.  [clamp(n, 0.2, 120)] is idempotent, monotone, sends every number
    from 120 up (Infinity included) to 120 and every number up to 0.2
    (-Infinity included) to the value 0.2, and keeps the value of a number
    within the bounds. *)
Theorem clamp_saturates :
  (forall n, clamp (clamp n lit_0_2 lit_120) lit_0_2 lit_120
             = clamp n lit_0_2 lit_120)
  /\ (forall n, le lit_120 n -> clamp n lit_0_2 lit_120 = lit_120)
  /\ (forall n, le n lit_0_2 ->
        le (clamp n lit_0_2 lit_120) lit_0_2
        /\ le lit_0_2 (clamp n lit_0_2 lit_120))
  /\ (forall q, le lit_0_2 (Num q) -> le (Num q) lit_120 ->
        le (clamp (Num q) lit_0_2 lit_120) (Num q)
        /\ le (Num q) (clamp (Num q) lit_0_2 lit_120))
  /\ (forall a b, le a b ->
        le (clamp a lit_0_2 lit_120) (clamp b lit_0_2 lit_120)).
Proof.
  split; [exact clamp_idempotent |].
  split.
  { intros n H. unfold clamp, lit_0_2, lit_120, le in *.
    destruct n as [| | q |]; cbn in *; try discriminate; try reflexivity.
    now rewrite H. }
  split.
  { intros n H. unfold clamp, lit_0_2, lit_120, le in *.
    destruct n as [| | q |]; cbn in *; try discriminate; auto.
    destruct (Qle_bool (120 # 1) q) eqn:E1; cbn.
    - exfalso. apply Qle_bool_iff in E1, H.
      pose proof (Qle_trans _ _ _ E1 H) as C. now apply Qle_bool_iff in C.
    - destruct (Qle_bool (1 # 5) q) eqn:E2; cbn; auto. }
  split.
  { intros q H1 H2. destruct (clamp_inside q) as [q' [E Hq]].
    - now apply Qle_bool_iff.
    - now apply Qle_bool_iff.
    - rewrite E. unfold le. cbn. rewrite !Qle_bool_iff, Hq.
      split; apply Qle_refl. }
  intros a b H. unfold clamp, lit_0_2, lit_120, le in *.
  destruct a as [| | p |], b as [| | q |]; cbn in *; try discriminate;
    try reflexivity;
    repeat match goal with
      | |- context [Qle_bool ?x ?y] =>
          lazymatch goal with
          | _ : Qle_bool x y = _ |- _ => fail
          | _ => destruct (Qle_bool x y) eqn:?
          end
      end; cbn; try reflexivity;
    repeat match goal with
      | E : Qle_bool _ _ = true |- _ => apply Qle_bool_iff in E
      | E : Qle_bool ?x ?y = false |- _ =>
          assert (~ (x <= y)%Q) by (rewrite <- Qle_bool_iff; congruence);
          clear E
      end;
    try (apply Qle_bool_iff); first [lra | exfalso; lra].
Qed.

Section Manifest.

Lemma splitOn_absent (c : ascii) (s : string) :
  occurs c s = false -> splitOn c s = [s].
Proof.
  induction s as [| a s IH]; cbn [occurs splitOn]; [reflexivity |].
  intros H. apply orb_false_iff in H. destruct H as [Ha Hs].
  rewrite Ha, (IH Hs). reflexivity.
Qed.

Lemma splitOn_join (c : ascii) (l : list string) :
  l <> [] -> (forall x, In x l -> occurs c x = false) ->
  splitOn c (join (String c EmptyString) l) = l.
Proof.
  unfold join. induction l as [| x l IH]; [congruence |].
  intros _ H. destruct l as [| y l].
  - cbn [String.concat]. apply splitOn_absent. apply H. now left.
  - change (String.concat (String c EmptyString) (x :: y :: l))
      with (x ++ String c (String.concat (String c EmptyString) (y :: l))).
    rewrite splitOn_app by (apply H; now left).
    cbn [splitOn]. rewrite Ascii.eqb_refl. cbn [hd tl].
    rewrite append_nil_r. f_equal. apply IH; [discriminate |].
    intros z Hz. apply H. now right.
Qed.

Lemma partName_one_line (i : nat) :
  occurs LFchar ("file '" ++ partName i ++ "'") = false.
Proof.
  unfold partName. rewrite !occurs_app.
  rewrite (String_int_chars LFchar) by reflexivity. reflexivity.
Qed.

End Manifest.

(** X21.  The list text of no part is empty; the list text of the parts
    [0] to [n], cut at the line feeds, is the line [file 'part_i.mp4'] for
    each part, in order: one line per part. *)
Theorem manifest_has_one_line_per_part (n : nat) :
  listTxt [] = EmptyString
  /\ splitOn LFchar (listTxt (map partName (seq 0 (S n))))
     = map (fun i => "file '" ++ partName i ++ "'") (seq 0 (S n))
  /\ List.length (splitOn LFchar (listTxt (map partName (seq 0 (S n))))) = S n.
Proof.
  assert (E : splitOn LFchar (listTxt (map partName (seq 0 (S n))))
              = map (fun i => "file '" ++ partName i ++ "'") (seq 0 (S n))).
  { unfold listTxt. rewrite map_map.
    change LF with (String LFchar EmptyString).
    apply splitOn_join; [discriminate |].
    intros x Hx. apply in_map_iff in Hx. destruct Hx as [i [Hi _]]. subst x.
    apply partName_one_line. }
  split; [reflexivity | split; [exact E |]].
  rewrite E, length_map, length_seq. reflexivity.
Qed.

Section Progress.


End Progress.


(* ================================================================== *)
(** * Further properties: runs one after the other, worked runs *)
(* ================================================================== *)

(** X12.  The engine is loaded at most once: a run that starts with the
    handle set makes no setup call; the handle is set after a run exactly
    when it was set before or the load returned in it; so a run after a run
    that ended with the success message makes no setup call, whatever its
    snapshot. *)
Theorem engine_loaded_once (String_number : number -> string) (Env : Type)
    (W : World Env) (p p' : Snapshot) (s : State Env) :
  let r := createVideo String_number W p s in
  (ffmpegRef s = true ->
     setups (eventsOf r) = [] /\ ffmpegRef (stateOf r) = true)
  /\ (ffmpegRef (stateOf r) = true
      <-> ffmpegRef s = true
          \/ exists a b c, In (Load a b c, true) (eventsOf r))
  /\ (message (stateOf r) = successMessage ->
        setups (eventsOf (createVideo String_number W p' (stateOf r))) = []).
Proof.
  intros r.
  destruct (run_handle String_number Env W p s) as [H1 [H2 H3]].
  fold r in H1, H2, H3.
  split; [exact H1 | split; [exact H2 |]].
  intros Hm. apply H3 in Hm.
  destruct (run_handle String_number Env W p' (stateOf r)) as [H4 _].
  now apply H4.
Qed.

(** The second of the three sample items is removed; an identifier that
    no item has removes nothing. *)
Lemma removeItem_removes_exactly_witness :
  removeItem "b" sampleItems
  = [ mkMediaItem "a" (mkFile "one.png" []) "Rome: day 1" (Num (2 # 1));
      mkMediaItem "c" (mkFile "three" []) " " (Num (1 # 10)) ]
  /\ removeItem "z" sampleItems = sampleItems.
Proof.
  destruct (removeItem_removes_exactly "b" sampleItems) as [_ [H2 _]].
  destruct (removeItem_removes_exactly "z" sampleItems) as [_ [_ [_ [H4 _]]]].
  split.
  - rewrite (H2 [ mkMediaItem "a" (mkFile "one.png" []) "Rome: day 1" (Num (2 # 1));
                  mkMediaItem "b" (mkFile "two.jpeg" []) EmptyString (Num (3 # 1)) ]
                (mkMediaItem "c" (mkFile "three" []) " " (Num (1 # 10))) []);
      [reflexivity | reflexivity | discriminate].
  - apply H4. intros x Hx. cbn in Hx.
    destruct Hx as [Hx | [Hx | [Hx | []]]]; subst x; discriminate.
Defined.

(** A caption for the second sample item. *)
Lemma updateItem_touches_only_target_witness :
  List.length (updateItem "b" (captionPatch "Florence") sampleItems) = 3%nat
  /\ map id (updateItem "b" (captionPatch "Florence") sampleItems) = ["a"; "b"; "c"]
  /\ nth_error (updateItem "b" (captionPatch "Florence") sampleItems) 1
     = Some (mkMediaItem "b" (mkFile "two.jpeg" []) "Florence" (Num (3 # 1))).
Proof.
  destruct (updateItem_touches_only_target "b" (captionPatch "Florence")
              sampleItems eq_refl) as [H1 [H2 [_ [H4 _]]]].
  split; [exact H1 | split; [exact H2 |]].
  apply (H4 1%nat (mkMediaItem "b" (mkFile "two.jpeg" []) EmptyString (Num (3 # 1))));
    reflexivity.
Defined.

(** Two items of 2 and 3 seconds: a file is picked, then the duration of
    the first is set to a text that converts to 500. *)
Lemma durations_stay_valid_witness :
  let prev := [ mkMediaItem "a" (mkFile "one.png" []) "Rome: day 1" (Num (2 # 1));
                mkMediaItem "b" (mkFile "two.jpeg" []) EmptyString (Num (3 # 1)) ] in
  let Number_ := fun _ : string => Num (500 # 1) in
  Forall durationValid
    (onPickMedia (fun _ => "n") (Some [mkFile "new.png" []]) prev)
  /\ Forall durationValid
       (onChangeDuration Number_ (mkMediaItem "a" (mkFile "one.png" []) EmptyString NaN)
          "500" prev).
Proof.
  intros prev Number_.
  assert (Hprev : Forall durationValid prev)
    by (repeat constructor; reflexivity).
  destruct (durations_stay_valid Number_ (fun _ => "n")
              (Some [mkFile "new.png" []])
              (mkMediaItem "a" (mkFile "one.png" []) EmptyString NaN)
              "x" "500" "a" prev Hprev) as [H1 [_ [_ H4]]].
  split; [exact H1 | apply H4; discriminate].
Defined.

(** Two files picked when the list has one item. *)
Lemma onPickMedia_appends_witness :
  let prev := [ mkMediaItem "a" (mkFile "one.png" []) "Rome: day 1" (Num (2 # 1)) ] in
  let files := [ mkFile "x.png" []; mkFile "y.png" [] ] in
  let freshId := fun k : nat => String_int (Z.of_nat k) in
  nth_error (onPickMedia freshId (Some files) prev) 2
  = Some (mkMediaItem "1" (mkFile "y.png" []) EmptyString lit_3).
Proof.
  intros prev files freshId.
  destruct (onPickMedia_appends freshId files prev) as [_ [_ [_ [_ [_ H]]]]].
  apply (H 1%nat (mkFile "y.png" [])). reflexivity.
Defined.

(** Two files with the same extension at the same index get the same
    staged name; the theorem gives the index back. *)
Lemma scratch_names_do_not_collide_witness :
  inputName 2 (mkMediaItem "a" (mkFile "one.png" []) EmptyString lit_3)
  = inputName 2 (mkMediaItem "b" (mkFile "two.png" []) EmptyString lit_3)
  /\ 2%nat = 2%nat
  /\ 7%nat = 7%nat.
Proof.
  destruct scratch_names_do_not_collide as [H1 [H2 _]].
  split; [reflexivity | split].
  - apply (H2 2%nat 2%nat (mkMediaItem "a" (mkFile "one.png" []) EmptyString lit_3)
             (mkMediaItem "b" (mkFile "two.png" []) EmptyString lit_3)).
    reflexivity.
  - apply (H1 7%nat 7%nat). reflexivity.
Defined.

(** A caption of a space and a tab, and the caption of the first sample
    item. *)
Lemma blank_caption_has_no_overlay_witness :
  vf 1280 720 (String " " (String (ascii_of_nat 9) EmptyString)) "font.ttf"
  = scalePad 1280 720
  /\ vf 1280 720 "Rome: day 1" "font.ttf"
     = scalePad 1280 720 ++ "," ++ drawtext 1280 720 "Rome: day 1" "font.ttf".
Proof.
  split.
  - destruct (blank_caption_has_no_overlay 1280 720
                (String " " (String (ascii_of_nat 9) EmptyString)) "font.ttf")
      as [_ [H _]].
    apply H. reflexivity.
  - destruct (blank_caption_has_no_overlay 1280 720 "Rome: day 1" "font.ttf")
      as [_ [_ H]].
    apply H; [reflexivity | discriminate].
Defined.

(** 500, Infinity and a tenth. *)
Lemma clamp_saturates_witness :
  clamp (Num (500 # 1)) lit_0_2 lit_120 = lit_120
  /\ clamp Infinity lit_0_2 lit_120 = lit_120
  /\ le (clamp (Num (1 # 10)) lit_0_2 lit_120) lit_0_2
  /\ le (clamp (Num (1 # 10)) lit_0_2 lit_120) (clamp (Num (7 # 1)) lit_0_2 lit_120).
Proof.
  destruct clamp_saturates as [_ [H2 [H3 [_ H5]]]].
  split; [apply H2; reflexivity | split; [apply H2; reflexivity | split]].
  - apply (H3 (Num (1 # 10))). reflexivity.
  - apply (H5 (Num (1 # 10)) (Num (7 # 1))). reflexivity.
Defined.


(** Two runs, one after the other: the second loads nothing. *)
Lemma engine_loaded_once_witness :
  let r := createVideo String_decimal (sampleWorld true true)
             (sampleSnapshot None) idle in
  ffmpegRef (stateOf r) = true
  /\ setups (eventsOf (createVideo String_decimal (sampleWorld true true)
                         (sampleSnapshot (Some sampleAudio)) (stateOf r))) = [].
Proof.
  intros r.
  destruct (engine_loaded_once String_decimal unit (sampleWorld true true)
              (sampleSnapshot None) (sampleSnapshot (Some sampleAudio)) idle)
    as [_ [H2 H3]].
  fold r in H2, H3. split.
  - apply H2. right.
    exists "blob:https://unpkg.com/@ffmpeg/core@0.12.6/dist/ffmpeg-core.js",
           "blob:https://unpkg.com/@ffmpeg/core@0.12.6/dist/ffmpeg-core.wasm",
           "blob:https://unpkg.com/@ffmpeg/core@0.12.6/dist/ffmpeg-core.worker.js".
    vm_compute. pick_event.
  - apply H3. reflexivity.
Defined.

(** The load of the engine throws. *)
Lemma engine_failure_stops_everything_witness :
  let r := createVideo String_decimal
             (faultyWorld (mkFaults true false false false false))
             (sampleSnapshot None) idle in
  List.length (eventsOf r) = 4%nat
  /\ writes (eventsOf r) = []
  /\ message (stateOf r) = failureMessage
  /\ ffmpegRef (stateOf r) = false.
Proof.
  intros r.
  destruct (engine_failure_stops_everything String_decimal unit
              (faultyWorld (mkFaults true false false false false))
              (sampleSnapshot None) idle
              (Load "blob:https://unpkg.com/@ffmpeg/core@0.12.6/dist/ffmpeg-core.js"
                    "blob:https://unpkg.com/@ffmpeg/core@0.12.6/dist/ffmpeg-core.wasm"
                    "blob:https://unpkg.com/@ffmpeg/core@0.12.6/dist/ffmpeg-core.worker.js"))
    as [_ [_ [_ [Hw [_ [_ [Hm [_ Hf]]]]]]]].
  - vm_compute. pick_event.
  - reflexivity.
  - fold r in Hw, Hm, Hf. split; [reflexivity | auto].
Defined.

(** The first render throws. *)
Lemma render_failure_aborts_witness :
  let r := createVideo String_decimal
             (faultyWorld (mkFaults false true false false false))
             (sampleSnapshot None) idle in
  message (stateOf r) = failureMessage
  /\ reads (eventsOf r) = []
  /\ List.length (execs (eventsOf r)) = 1%nat.
Proof.
  intros r.
  destruct (render_failure_aborts String_decimal unit
              (faultyWorld (mkFaults false true false false false))
              (sampleSnapshot None) idle
              (renderCommand String_decimal (sampleSnapshot None) "font.ttf" 0
                 (mkMediaItem "a" (mkFile "one.png" []) "Rome: day 1" (Num (2 # 1)))))
    as [Hm [_ [Hr _]]].
  - vm_compute. pick_event.
  - reflexivity.
  - fold r in Hm, Hr. split; [exact Hm | split; [exact Hr | reflexivity]].
Defined.

(** The concatenation throws. *)
Lemma concat_failure_aborts_witness :
  let r := createVideo String_decimal
             (faultyWorld (mkFaults false false true false false))
             (sampleSnapshot (Some sampleAudio)) idle in
  message (stateOf r) = failureMessage
  /\ reads (eventsOf r) = []
  /\ List.length (execs (eventsOf r)) = 4%nat.
Proof.
  intros r.
  destruct (concat_failure_aborts String_decimal unit
              (faultyWorld (mkFaults false false true false false))
              (sampleSnapshot (Some sampleAudio)) idle)
    as [Hm [_ [Hr _]]].
  - vm_compute. pick_event.
  - fold r in Hm, Hr. split; [exact Hm | split; [exact Hr | reflexivity]].
Defined.

(** The concat list of the three sample items. *)
Lemma manifest_lists_parts_in_order_witness :
  let r := createVideo String_decimal (faultyWorld noFaults)
             (sampleSnapshot None) idle in
  exists data,
    In (WriteFile "concat_list.txt" data, true) (eventsOf r)
    /\ data = TextEncoder_encode
                (listTxt ["part_0.mp4"; "part_1.mp4"; "part_2.mp4"]).
Proof.
  intros r.
  exists (TextEncoder_encode (listTxt ["part_0.mp4"; "part_1.mp4"; "part_2.mp4"])).
  assert (Hin : In (WriteFile "concat_list.txt"
                      (TextEncoder_encode
                         (listTxt ["part_0.mp4"; "part_1.mp4"; "part_2.mp4"])), true)
                   (eventsOf r))
    by (vm_compute; pick_event).
  split; [exact Hin |].
  apply (manifest_lists_parts_in_order String_decimal unit (faultyWorld noFaults)
           (sampleSnapshot None) idle _ true Hin).
Defined.

(** Three items and an audio file, nothing throws. *)
Lemma mux_success_reads_final_witness :
  let r := createVideo String_decimal (faultyWorld noFaults)
             (sampleSnapshot (Some sampleAudio)) idle in
  reads (eventsOf r) = ["final.mp4"]
  /\ message (stateOf r) = successMessage.
Proof.
  intros r.
  destruct (mux_success_reads_final String_decimal unit (faultyWorld noFaults)
              (sampleSnapshot (Some sampleAudio)) idle)
    as [Hr [_ [_ Hok]]].
  - vm_compute. pick_event.
  - fold r in Hr, Hok. split; [exact Hr |].
    destruct Hok as [Hm _]; [vm_compute; pick_event | exact Hm].
Defined.

(** Writing the staged audio throws. *)
Lemma audio_staging_failure_is_fatal_witness :
  let r := createVideo String_decimal
             (faultyWorld (mkFaults false false false true false))
             (sampleSnapshot (Some sampleAudio)) idle in
  message (stateOf r) = failureMessage
  /\ videoUrl (stateOf r) = None
  /\ reads (eventsOf r) = [].
Proof.
  intros r.
  destruct (audio_staging_failure_is_fatal String_decimal unit
              (faultyWorld (mkFaults false false false true false))
              (sampleSnapshot (Some sampleAudio)) idle [])
    as [Hm [Hu [Hr _]]].
  - vm_compute. pick_event.
  - fold r in Hm, Hu, Hr. auto.
Defined.

(** The read of the final file throws. *)
Lemma read_failure_is_fatal_witness :
  let r := createVideo String_decimal
             (faultyWorld (mkFaults false false false false true))
             (sampleSnapshot None) idle in
  message (stateOf r) = failureMessage
  /\ videoUrl (stateOf r) = None
  /\ reads (eventsOf r) = ["output_video.mp4"].
Proof.
  intros r.
  destruct (read_failure_is_fatal String_decimal unit
              (faultyWorld (mkFaults false false false false true))
              (sampleSnapshot None) idle "output_video.mp4")
    as [Hm [Hu [Hr _]]].
  - vm_compute. pick_event.
  - fold r in Hm, Hu, Hr. auto.
Defined.

(** The reset in the faulty world: of the four entries listed, the two
    that are not [.] and [..] are deleted, the second after the first
    deletion threw. *)
Lemma resetFS_deletes_listed_example :
  let r := resetFS (faultyWorld noFaults) idle in
  eventsOf r
  = [ (ListDir "/", true); (DeleteFile "/final.mp4", false);
      (DeleteFile "/part_0.mp4", true) ]
  /\ outcomeOf r = Ok tt.
Proof. split; reflexivity. Qed.
